(** * The [no-trigger-core-import] lint rule and the GitHub task error handler

    A shallow embedding of
    - [packages/eslint-plugin/lib/rules/no-trigger-core-import.js]: the
      allow-list builder, the relative specifier resolver, the export graph
      walker and the rule driver;
    - the shared [onError] handler of the GitHub task wrappers.

    JavaScript strings are [string], the file system is a finite map from
    absolute paths to entries, an exception is an outcome of its own, and the
    walker's recursion is indexed by a fuel so that running out of fuel can be
    told apart from returning [null]. *)

From Stdlib Require Import ZArith Ascii String.
From stdpp Require Import gmap strings list fin_maps.

Local Open Scope string_scope.

(** ** JavaScript string helpers *)

Module JsString.

Fixpoint drop (n : nat) (s : string) : string :=
  match n, s with
  | O, _ => s
  | S n', String _ r => drop n' r
  | S _, EmptyString => EmptyString
  end.

(** [s.startsWith(p)] *)
Definition startsWith (s p : string) : bool := String.prefix p s.

(** [s.split(c)] for a one-character separator. *)
Fixpoint split_char (c : ascii) (s : string) : list string :=
  match s with
  | EmptyString => [EmptyString]
  | String a r =>
      if Ascii.eqb a c then EmptyString :: split_char c r
      else match split_char c r with
           | h :: t => String a h :: t
           | [] => [String a EmptyString]
           end
  end.

(** [l.join(sep)] *)
Fixpoint join (sep : string) (l : list string) : string :=
  match l with
  | [] => EmptyString
  | [x] => x
  | x :: r => x +:+ sep +:+ join sep r
  end.

(** The text before and after the first occurrence of [sep] in [s]. *)
Fixpoint split_first (sep s : string) : option (string * string) :=
  if String.prefix sep s then Some (EmptyString, drop (String.length sep) s)
  else match s with
       | EmptyString => None
       | String a r =>
           match split_first sep r with
           | Some (b, k) => Some (String a b, k)
           | None => None
           end
       end.

(** [s.split(sep)[1]] for a non-empty [sep]: [None] is [undefined]. *)
Definition split_index1 (sep s : string) : option string :=
  match split_first sep s with
  | None => None
  | Some (_, k) =>
      Some (match split_first sep k with
            | Some (b, _) => b
            | None => k
            end)
  end.

(** [s.replace(/\\/g, "/")] *)
Fixpoint backslash_to_slash (s : string) : string :=
  match s with
  | EmptyString => EmptyString
  | String a r =>
      String (if Ascii.eqb a "\"%char then "/"%char else a)
             (backslash_to_slash r)
  end.

(** [key.replace(/^\.\/?/, "")] *)
Definition strip_dot_slash (s : string) : string :=
  match s with
  | String "." (String "/" r) => r
  | String "." r => r
  | _ => s
  end.

(** JavaScript truthiness of a string. *)
Definition truthy (s : string) : bool :=
  match s with EmptyString => false | _ => true end.

End JsString.

(** ** Node's POSIX [path] module, on the operations the rule uses *)

Module Path.

Definition isAbsolute (p : string) : bool :=
  match p with String "/" _ => true | _ => false end.

(** [normalizeString]: the stack is kept reversed. *)
Fixpoint normalize_segments (allowAboveRoot : bool) (segs stack : list string)
  : list string :=
  match segs with
  | [] => rev stack
  | seg :: r =>
      if String.eqb seg "" || String.eqb seg "." then
        normalize_segments allowAboveRoot r stack
      else if String.eqb seg ".." then
        match stack with
        | top :: below =>
            if String.eqb top ".." then
              normalize_segments allowAboveRoot r
                (if allowAboveRoot then ".." :: stack else stack)
            else normalize_segments allowAboveRoot r below
        | [] =>
            normalize_segments allowAboveRoot r
              (if allowAboveRoot then [".."] else [])
        end
      else normalize_segments allowAboveRoot r (seg :: stack)
  end.

Definition normalizeString (p : string) (allowAboveRoot : bool) : string :=
  JsString.join "/"
    (normalize_segments allowAboveRoot (JsString.split_char "/" p) []).

Definition ends_with_slash (p : string) : bool :=
  match rev (list_ascii_of_string p) with
  | "/"%char :: _ => true
  | _ => false
  end.

Definition normalize (p : string) : string :=
  match p with
  | EmptyString => "."
  | _ =>
      let n := normalizeString p (negb (isAbsolute p)) in
      match n with
      | EmptyString =>
          if isAbsolute p then "/"
          else if ends_with_slash p then "./" else "."
      | _ =>
          let n' := if ends_with_slash p then n +:+ "/" else n in
          if isAbsolute p then "/" +:+ n' else n'
      end
  end.

(** [path.join(a, b)] *)
Definition join (a b : string) : string :=
  match filter (fun s => JsString.truthy s = true) [a; b] with
  | [] => "."
  | l => normalize (JsString.join "/" l)
  end.

(** The right-to-left scan of [path.resolve]: stops at the first absolute
    argument. *)
Fixpoint resolve_scan (rargs : list string) (acc : string) : string * bool :=
  match rargs with
  | [] => (acc, false)
  | p :: r =>
      if JsString.truthy p then
        let acc' := p +:+ "/" +:+ acc in
        if isAbsolute p then (acc', true) else resolve_scan r acc'
      else resolve_scan r acc
  end.

(** [path.resolve(...args)] with [process.cwd()] given. *)
Definition resolve (cwd : string) (args : list string) : string :=
  let '(acc, abs) := resolve_scan (rev args) "" in
  let '(acc, abs) :=
    if abs then (acc, true) else (cwd +:+ "/" +:+ acc, isAbsolute cwd) in
  let n := normalizeString acc (negb abs) in
  if abs then "/" +:+ n
  else if JsString.truthy n then n else ".".

(** The backward scan of [path.dirname] over the characters at the indices
    [len-1 .. 1], given reversed; [Some rest] holds, reversed, the characters
    strictly between index 0 and the slash at which the scan stopped. *)
Fixpoint dirname_scan (r : list ascii) (matchedSlash : bool)
  : option (list ascii) :=
  match r with
  | [] => None
  | c :: r' =>
      if Ascii.eqb c "/" then
        if matchedSlash then dirname_scan r' true else Some r'
      else dirname_scan r' false
  end.

Definition dirname (p : string) : string :=
  match list_ascii_of_string p with
  | [] => "."
  | c0 :: tl =>
      let hasRoot := Ascii.eqb c0 "/" in
      match dirname_scan (rev tl) true with
      | None => if hasRoot then "/" else "."
      | Some [] => if hasRoot then "//" else String c0 EmptyString
      | Some rest => string_of_list_ascii (c0 :: rev rest)
      end
  end.

End Path.

(** ** Outcomes of JavaScript code *)

Inductive js_exception :=
| TypeError (msg : string)
| ENOENT (path : string)
| ReadError (path : string)
| SyntaxError (path : string)
| Error (msg : string).

(** A call returns, throws, or (in the fuel-indexed model of the walker) has
    not returned within the given recursion depth. *)
Inductive outcome (A : Type) :=
| Ret (a : A)
| Throw (e : js_exception)
| OutOfFuel.
Arguments Ret {A} a.
Arguments Throw {A} e.
Arguments OutOfFuel {A}.

#[global] Instance outcome_ret : MRet outcome := @Ret.
#[global] Instance outcome_bind : MBind outcome := fun A B f m =>
  match m with
  | Ret a => f a
  | Throw e => Throw e
  | OutOfFuel => OutOfFuel
  end.

(** [l.map(f)] for an [f] that may throw: left to right, stops at the first
    exception. *)
Fixpoint map_outcome {A B} (f : A -> outcome B) (l : list A) : outcome (list B) :=
  match l with
  | [] => Ret []
  | x :: r => y ← f x; ys ← map_outcome f r; Ret (y :: ys)
  end.

(** A value that is [null], [undefined] or a string. *)
Inductive jsval :=
| JNull
| JUndefined
| JString (s : string).

Definition jsval_truthy (v : jsval) : bool :=
  match v with
  | JString s => JsString.truthy s
  | _ => false
  end.

(** ** Syntax trees, as far as the walker inspects them *)

Inductive declaration :=
| VariableDeclaration (ids : list (option string))
    (** one entry per declarator: [decl.id.name], [None] for a pattern *)
| FunctionDeclaration (id : string)
| ClassDeclaration (id : string)
| OtherDeclaration.
    (** type aliases, interfaces, enums, ... *)

Record export_specifier := { es_local : string; es_exported : string }.

(** The nodes for which [traverse] calls one of the two visitors, in the order
    in which it meets them. *)
Inductive export_node :=
| ExportNamedDeclaration (decl : option declaration)
    (specifiers : list export_specifier) (source : option string)
| ExportAllDeclaration (source : string).

(** ** The file system *)

Inductive fs_entry :=
| Directory
| File (program : option (list export_node)).
    (** the parsed text; [None] when [parser.parse] rejects it *)

Section FileSystem.

Variable cwd : string.
Variable fs : gmap string fs_entry.

Definition existsSync (p : string) : bool :=
  match fs !! p with Some _ => true | None => false end.

(** [fs.lstatSync(p).isDirectory()] *)
Definition lstat_isDirectory (p : string) : outcome bool :=
  match fs !! p with
  | None => Throw (ENOENT p)
  | Some Directory => Ret true
  | Some (File _) => Ret false
  end.

(** [parser.parse(fs.readFileSync(p, "utf8"), ...)] *)
Definition read_and_parse (p : string) : outcome (list export_node) :=
  match fs !! p with
  | None => Throw (ENOENT p)
  | Some Directory => Throw (ReadError p)
  | Some (File None) => Throw (SyntaxError p)
  | Some (File (Some ast)) => Ret ast
  end.

Definition possibleExtensions : list string := [""; ".ts"; ".tsx"; ".js"; ".jsx"].
Definition possibleIndexFiles : list string :=
  ["index.ts"; "index.tsx"; "index.js"; "index.jsx"].

(** The first loop of [tryResolveSourcePath]. *)
Fixpoint probe_extensions (baseDir sourcePath : string) (exts : list string)
  : option string :=
  match exts with
  | [] => None
  | ext :: r =>
      let fullPath := Path.resolve cwd [baseDir; sourcePath +:+ ext] in
      if existsSync fullPath then Some fullPath
      else probe_extensions baseDir sourcePath r
  end.

(** Its second loop. *)
Fixpoint probe_index_files (dirPath : string) (names : list string)
  : option string :=
  match names with
  | [] => None
  | indexFile :: r =>
      let indexPath := Path.join dirPath indexFile in
      if existsSync indexPath then Some indexPath
      else probe_index_files dirPath r
  end.

(** [fs.existsSync(p) && fs.lstatSync(p).isDirectory()] *)
Definition exists_and_isDirectory (p : string) : bool :=
  existsSync p &&
  match fs !! p with Some Directory => true | _ => false end.

Definition tryResolveSourcePath (baseDir sourcePath : string) : option string :=
  match probe_extensions baseDir sourcePath possibleExtensions with
  | Some fullPath => Some fullPath
  | None =>
      let dirPath := Path.resolve cwd [baseDir; sourcePath] in
      if exists_and_isDirectory dirPath then
        probe_index_files dirPath possibleIndexFiles
      else None
  end.

End FileSystem.

(** ** The allow-list of barrel files *)

Definition blockedImportSources : list string :=
  ["@trigger.dev/core"; "@trigger.dev/core/v3"].

(** One turn of the [for (let key in exports)] loop: the entry pushed, if any. *)
Definition allowed_entry (key : string) : option string :=
  let key := JsString.strip_dot_slash key in
  if String.eqb key "package.json" then None
  else Some (JsString.join "/"
               (filter (fun s => JsString.truthy s = true)
                       ["@trigger.dev/core"; key])).

(** [getAllowedBarrelFiles], from the keys of the manifest's [exports] in
    their enumeration order. *)
Definition getAllowedBarrelFiles (exports : list string) : list string :=
  let allowedFiles := omap allowed_entry exports in
  filter (fun file => file ∉ blockedImportSources) allowedFiles.

Definition pathToCorePath (filePath : string) : outcome string :=
  let baseName := "@trigger.dev/core" in
  match JsString.split_index1 "packages/core/src/" filePath with
  | None => Throw (TypeError "Cannot read properties of undefined (reading 'replace')")
  | Some part =>
      let relativePath := JsString.backslash_to_slash part in
      Ret (baseName +:+ "/" +:+ relativePath)
  end.

(** ** The export graph walker *)

(** The variable [barrelFile] that [resolveExport] closes over ([None] is
    [undefined]), and a history variable: the files the walker has gone
    through, the latest first. The history is never read by the code. *)
Record walk_state := WalkState {
  barrelFile : option string;
  visited : list string
}.

Definition walker (A : Type) : Type := walk_state -> outcome (A * walk_state).

#[global] Instance walker_ret : MRet walker := fun A a st => Ret (a, st).
#[global] Instance walker_bind : MBind walker := fun A B f m st =>
  match m st with
  | Ret (a, st') => f a st'
  | Throw e => Throw e
  | OutOfFuel => OutOfFuel
  end.

Definition lift {A} (o : outcome A) : walker A := fun st =>
  match o with
  | Ret a => Ret (a, st)
  | Throw e => Throw e
  | OutOfFuel => OutOfFuel
  end.

Definition set_barrelFile (b : string) : walker unit := fun st =>
  Ret (tt, WalkState (Some b) (visited st)).

Definition note_visited (filePath : string) : walker unit := fun st =>
  Ret (tt, WalkState (barrelFile st) (filePath :: visited st)).

(** [decl.id.name === specifier] and its two siblings. *)
Definition declares (d : declaration) (specifier : string) : bool :=
  match d with
  | VariableDeclaration ids =>
      existsb (fun id => match id with
                         | Some name => String.eqb name specifier
                         | None => false
                         end) ids
  | FunctionDeclaration id => String.eqb id specifier
  | ClassDeclaration id => String.eqb id specifier
  | OtherDeclaration => false
  end.

Section Walker.

Variable cwd : string.
Variable fs : gmap string fs_entry.
Variable allowedBarrelFiles : list string.

(** The loop over [allowedBarrelFiles]: every entry that the file's core
    path starts with is assigned to [barrelFile] in turn. *)
Fixpoint classify (filePath : string) (allowed : list string) : walker unit :=
  match allowed with
  | [] => mret tt
  | allowedBarrelFile :: r =>
      corePath ← lift (pathToCorePath filePath);
      _ ← (if JsString.startsWith corePath allowedBarrelFile
           then set_barrelFile allowedBarrelFile
           else mret tt);
      classify filePath r
  end.

(** The directory against which a re-export's source is resolved. *)
Definition source_dir (fileOrDir : string) : outcome string :=
  isDir ← lstat_isDirectory fs fileOrDir;
  Ret (if isDir : bool then fileOrDir else Path.dirname fileOrDir).

(** [v ? v : null], also the test [if (v)] on a path or [null] *)
Definition or_null (foundPath : option string) : option string :=
  match foundPath with
  | Some p => if JsString.truthy p then Some p else None
  | None => None
  end.

Section Visitors.

(** The recursive call, and the variables of the enclosing call. *)
Variable resolveExport_rec : string -> string -> walker (option string).
Variables fileOrDir filePath specifier : string.

(** Follow one re-export source; [None] when it leads nowhere. *)
Definition follow_source (sourcePath : string) : walker (option string) :=
  dir ← lift (source_dir fileOrDir);
  match or_null (tryResolveSourcePath cwd fs dir sourcePath) with
  | Some resolvedSourcePath => resolveExport_rec resolvedSourcePath specifier
  | None => mret None
  end.

(** The [for (const exportSpecifier of node.specifiers)] loop; the result
    is the value of [foundPath] when the visitor returns. *)
Fixpoint visit_specifiers (source : option string)
    (specs : list export_specifier) (foundPath : option string)
  : walker (option string) :=
  match specs with
  | [] => mret foundPath
  | exportSpecifier :: r =>
      if String.eqb (es_exported exportSpecifier) specifier then
        match source with
        | None =>
            lift (Throw (TypeError "Cannot read properties of null (reading 'value')"))
        | Some sourcePath =>
            resolvedExport ← follow_source sourcePath;
            match or_null resolvedExport with
            | Some p => mret (Some p)
            | None => visit_specifiers source r foundPath
            end
        end
      else visit_specifiers source r foundPath
  end.

(** One call of a visitor: from [foundPath] before to [foundPath] after. *)
Definition visit (node : export_node) (foundPath : option string)
  : walker (option string) :=
  match node with
  | ExportNamedDeclaration (Some d) _ _ =>
      if declares d specifier then mret (Some filePath) else mret foundPath
  | ExportNamedDeclaration None specs source =>
      visit_specifiers source specs foundPath
  | ExportAllDeclaration sourcePath =>
      resolvedExport ← follow_source sourcePath;
      match or_null resolvedExport with
      | Some p => mret (Some p)
      | None => mret foundPath
      end
  end.

(** [traverse(ast, visitors)]: every node is visited; nothing stops it. *)
Fixpoint traverse (ast : list export_node) (foundPath : option string)
  : walker (option string) :=
  match ast with
  | [] => mret foundPath
  | node :: r => foundPath' ← visit node foundPath; traverse r foundPath'
  end.

End Visitors.

Fixpoint resolveExport (fuel : nat) (fileOrDir specifier : string)
  : walker (option string) :=
  match fuel with
  | O => fun _ => OutOfFuel
  | S fuel' =>
      isDir ← lift (lstat_isDirectory fs fileOrDir);
      let filePath :=
        if isDir : bool then Path.join fileOrDir "index.ts" else fileOrDir in
      if negb (existsSync fs filePath) then mret None
      else
        _ ← note_visited filePath;
        _ ← classify filePath allowedBarrelFiles;
        ast ← lift (read_and_parse fs filePath);
        foundPath ← traverse (resolveExport fuel') fileOrDir filePath specifier
                      ast None;
        mret (or_null foundPath)
  end.

End Walker.

(** ** The syntax the rule driver sees, and its reports *)

Inductive import_specifier :=
| ImportSpecifier (imported local text : string)
| ImportDefaultSpecifier (local text : string)
| ImportNamespaceSpecifier (local text : string).

Definition local_name (s : import_specifier) : string :=
  match s with
  | ImportSpecifier _ l _ => l
  | ImportDefaultSpecifier l _ => l
  | ImportNamespaceSpecifier l _ => l
  end.

(** [context.getSourceCode().getText(specifier)] *)
Definition getText (s : import_specifier) : string :=
  match s with
  | ImportSpecifier _ _ t => t
  | ImportDefaultSpecifier _ t => t
  | ImportNamespaceSpecifier _ t => t
  end.

(** [specifier.imported.name]: only an [ImportSpecifier] has [imported]. *)
Definition imported_name (s : import_specifier) : outcome string :=
  match s with
  | ImportSpecifier i _ _ => Ret i
  | _ => Throw (TypeError "Cannot read properties of undefined (reading 'name')")
  end.

Record import_declaration := ImportDecl {
  imp_source : string;
  imp_specifiers : list import_specifier
}.

Record specifier_fix := SpecifierFix { original : string; path : string }.

Inductive fix_op :=
| replaceText (node : import_declaration) (text : string).

Record report := Report {
  messageId : string;
  data : list (string * string);
  report_fix : option fix_op
}.

(** ** Resolving one imported name, and the rule driver *)

(** What [tsconfigPaths.loadConfig(tsconfigPath)] does for the project: it
    throws (as it does with [ENOENT] when there is no [tsconfig.json]); or it
    returns a result in which [absoluteBaseUrl] or [paths] is missing; or it
    returns both, and [createMatchPath] makes of them the matcher, which is
    given here as applied to the four extensions. *)
Inductive loaded_config :=
| ConfigThrows (e : js_exception)
| ConfigIncomplete
| ConfigPaths (matchPath : string -> option string).

Section Rule.

Variable cwd : string.
Variable fs : gmap string fs_entry.
Variable allowedBarrelFiles : list string.

Variable tsconfig : loaded_config.

Definition resolveModulePath (sourcePath : string) : outcome string :=
  match tsconfig with
  | ConfigThrows e => Throw e
  | ConfigIncomplete => Throw (Error "Could not load tsconfig paths")
  | ConfigPaths matchPath =>
      match or_null (matchPath sourcePath) with
      | Some resolvedPath =>
          let resolvedPath :=
            if exists_and_isDirectory fs resolvedPath then
              let indexResolvedPath := Path.join resolvedPath "index.ts" in
              if existsSync fs indexResolvedPath then indexResolvedPath
              else resolvedPath
            else resolvedPath in
          Ret (Path.resolve cwd [resolvedPath])
      | None => Ret (Path.resolve cwd [sourcePath])
      end
  end.

(** [resolveSpecifier] together with the walker's final state. *)
Definition resolveSpecifier_run (fuel : nat) (importSource specifier : string)
  : outcome (jsval * walk_state) :=
  corePath ← resolveModulePath importSource;
  let coreDir := Path.dirname corePath in
  '(resolvedPath, st) ←
     resolveExport cwd fs allowedBarrelFiles fuel coreDir specifier
       (WalkState None []);
  match or_null resolvedPath with
  | Some _ =>
      Ret (match barrelFile st with
           | Some b => JString b
           | None => JUndefined
           end, st)
  | None => Ret (JNull, st)
  end.

Definition resolveSpecifier (fuel : nat) (importSource specifier : string)
  : outcome jsval :=
  r ← resolveSpecifier_run fuel importSource specifier; Ret (fst r).

(** The body of the [.map] callback: [None] is [null]. *)
Definition specifier_fix_of (fuel : nat) (importSource : string)
    (specifier : import_specifier) : outcome (option specifier_fix) :=
  name ← imported_name specifier;
  resolvedPath ← resolveSpecifier fuel importSource name;
  match resolvedPath with
  | JString p =>
      if JsString.truthy p
      then Ret (Some (SpecifierFix (getText specifier) p))
      else Ret None
  | _ => Ret None
  end.

Definition fix_statement (f : specifier_fix) : string :=
  "import { " +:+ original f +:+ " } from '" +:+ path f +:+ "';".

(** [Array.from(new Set(l))]: first occurrences, in order. *)
Fixpoint set_order (seen l : list string) : list string :=
  match l with
  | [] => []
  | x :: r =>
      if bool_decide (x ∈ seen) then set_order seen r
      else x :: set_order (x :: seen) r
  end.

(** The [ImportDeclaration] visitor: the report made, if any. *)
Definition ImportDeclaration (fuel : nat) (node : import_declaration)
  : outcome (option report) :=
  let importSource := imp_source node in
  if bool_decide (importSource ∈ blockedImportSources) then
    mapped ← map_outcome (specifier_fix_of fuel importSource)
               (imp_specifiers node);
    let specifierFixes := omap id mapped in
    if (0 <? length specifierFixes)%nat then
      let fixes := JsString.join (String "010" "")
                     (map fix_statement specifierFixes) in
      Ret (Some (Report "noTriggerCoreImportFixable"
             [("importSource", importSource);
              ("name", JsString.join ", " (map local_name (imp_specifiers node)));
              ("resolvedPath",
               JsString.join ", " (set_order [] (map path specifierFixes)))]
             (Some (replaceText node fixes))))
    else
      Ret (Some (Report "noTriggerCoreImport"
             [("importSource", importSource)] None))
  else Ret None.

End Rule.

(** ** The GitHub task wrappers: the shared error handler *)

Module Github.




















End Github.

(** ** Notions used to state the properties *)

(** The allow-list entries that the core path of [filePath] starts with, in
    the order of the list. *)
Definition matches (allowed : list string) (filePath : string) : list string :=
  match pathToCorePath filePath with
  | Ret corePath =>
      filter (fun a => JsString.startsWith corePath a = true) allowed
  | _ => []
  end.

(** All matches of the given files, file by file. *)
Definition all_matches (allowed files : list string) : list string :=
  concat (map (matches allowed) files).

(** The latest of the matches found, or what was recorded before. *)
Definition last_match (previous : option string) (found : list string)
  : option string :=
  match last found with
  | Some b => Some b
  | None => previous
  end.

(** A walker computation tracks the allow-list when, each time it returns, the
    files it has gone through are added to the history and [barrelFile] holds
    the latest match among them. *)
Definition tracks {A} (allowed : list string) (m : walker A) : Prop :=
  forall st a st',
    m st = Ret (a, st') ->
    exists new,
      visited st' = (new ++ visited st)%list /\
      barrelFile st' =
        last_match (barrelFile st) (all_matches allowed (rev new)).

(** [m'] returns or throws whatever [m] does, wherever [m] is not out of
    fuel. *)
Definition refines {A} (m m' : walker A) : Prop :=
  forall st, m st <> OutOfFuel -> m' st = m st.

(** What a walker computation returns, without the final state. *)
Definition returned {A} (o : outcome (A * walk_state)) : outcome A :=
  r ← o; Ret (fst r).

(** How each specifier of an import ends up in the list of fixes: a resolved
    one contributes its own text with the value [resolveSpecifier] returned,
    an unresolved one contributes nothing. *)
Inductive fixes_of (resolve : string -> outcome jsval)
  : list import_specifier -> list specifier_fix -> Prop :=
| fixes_of_nil : fixes_of resolve [] []
| fixes_of_resolved imported local text p specs fixes :
    resolve imported = Ret (JString p) ->
    JsString.truthy p = true ->
    fixes_of resolve specs fixes ->
    fixes_of resolve (ImportSpecifier imported local text :: specs)
      (SpecifierFix text p :: fixes)
| fixes_of_unresolved imported local text v specs fixes :
    resolve imported = Ret v ->
    jsval_truthy v = false ->
    fixes_of resolve specs fixes ->
    fixes_of resolve (ImportSpecifier imported local text :: specs) fixes.

(** The line feed that joins the synthesized statements. *)
Definition newline : string := String "010" "".

(** ** The behaviour the specification describes, where it is compared with
    the code *)

Module Claimed.

(** The specifier texts imported from [p], in order. *)
Definition names_from (p : string) (fixes : list specifier_fix) : list string :=
  map original (filter (fun f => path f = p) fixes).

(** One statement per distinct resolved path, naming all the specifiers that
    resolved to it: [import { <name1>, <name2> } from "<path>"]. *)
Definition grouped_statements (fixes : list specifier_fix) : list string :=
  map (fun p =>
         "import { " +:+ JsString.join ", " (names_from p fixes) +:+
         " } from " +:+ String "034" p +:+ String "034" "")
      (set_order [] (map path fixes)).

(** The first of the matches found, or what was recorded before. *)
Definition first_match (previous : option string) (found : list string)
  : option string :=
  match head found with
  | Some b => Some b
  | None => previous
  end.



(** The relative specifier resolver with every probe a test for a file, and
    the index files probed when the specifier names a directory. *)
Definition is_file (fs : gmap string fs_entry) (p : string) : bool :=
  match fs !! p with Some (File _) => true | _ => false end.

Definition tryResolveSourcePath (cwd : string) (fs : gmap string fs_entry)
    (baseDir sourcePath : string) : option string :=
  match
    find (is_file fs)
      (map (fun ext => Path.resolve cwd [baseDir; sourcePath +:+ ext])
           possibleExtensions)
  with
  | Some p => Some p
  | None =>
      let dirPath := Path.resolve cwd [baseDir; sourcePath] in
      if exists_and_isDirectory fs dirPath then
        find (is_file fs) (map (Path.join dirPath) possibleIndexFiles)
      else None
  end.

End Claimed.

(** ** Concrete projects *)

Module Scenario.

Definition cwd : string := "/repo".
Definition src : string := "/repo/packages/core/src".
Definition v3 : string := "/repo/packages/core/src/v3".

(** The path mapping of the project's [tsconfig.json]. *)
Definition tsconfig : loaded_config :=
  ConfigPaths (fun s =>
                 if String.eqb s "@trigger.dev/core/v3" then Some v3
                 else if String.eqb s "@trigger.dev/core" then Some src
                 else None).

(** A [tsconfig.json] whose path table does not mention the package. *)
Definition tsconfig_unmapped : loaded_config := ConfigPaths (fun _ => None).

(** [export const <name> = ...;] *)
Definition export_const (name : string) : export_node :=
  ExportNamedDeclaration (Some (VariableDeclaration [Some name])) [] None.

(** [export { <names> } from "<source>";] *)
Definition export_from (names : list string) (source : string) : export_node :=
  ExportNamedDeclaration None
    (map (fun n => {| es_local := n; es_exported := n |}) names) (Some source).

Definition file (ast : list export_node) : fs_entry := File (Some ast).

(** [Foo] declared in [v3/foo.ts] and re-exported from [v3/index.ts]. *)
Definition fs_foo : gmap string fs_entry :=
  list_to_map
    [(src, Directory);
     (v3, Directory);
     ("/repo/packages/core/src/v3/index.ts", file [export_from ["Foo"] "./foo"]);
     ("/repo/packages/core/src/v3/foo.ts", file [export_const "Foo"])].

Definition import_Foo : import_declaration :=
  ImportDecl "@trigger.dev/core/v3" [ImportSpecifier "Foo" "Foo" "Foo"].

Definition import_Bar : import_declaration :=
  ImportDecl "@trigger.dev/core/v3" [ImportSpecifier "Bar" "Bar" "Bar"].

(** [v3/index.ts] declares [Foo] and then has [export * from "./b"], where
    [v3/b.ts] declares a [Foo] of its own. *)
Definition fs_shadowed : gmap string fs_entry :=
  list_to_map
    [(v3, Directory);
     ("/repo/packages/core/src/v3/index.ts",
      file [export_const "Foo"; ExportAllDeclaration "./b"]);
     ("/repo/packages/core/src/v3/b.ts", file [export_const "Foo"])].

(** [v3/index.ts] has [export * from "./b"] and then [export * from "./c"];
    both files declare [Foo]. *)
Definition fs_two_wildcards : gmap string fs_entry :=
  list_to_map
    [(v3, Directory);
     ("/repo/packages/core/src/v3/index.ts",
      file [ExportAllDeclaration "./b"; ExportAllDeclaration "./c"]);
     ("/repo/packages/core/src/v3/b.ts", file [export_const "Foo"]);
     ("/repo/packages/core/src/v3/c.ts", file [export_const "Foo"])].

(** [v3/a.ts] has [export * from "./b"] and [v3/b.ts] has
    [export * from "./a"]; neither declares anything. *)
Definition a_ts : string := "/repo/packages/core/src/v3/a.ts".
Definition b_ts : string := "/repo/packages/core/src/v3/b.ts".
Definition fs_cycle : gmap string fs_entry :=
  list_to_map
    [(v3, Directory);
     (a_ts, file [ExportAllDeclaration "./b"]);
     (b_ts, file [ExportAllDeclaration "./a"])].

(** [A] and [B] declared in [v3/foo.ts], both re-exported from
    [v3/index.ts]. *)
Definition fs_two_names : gmap string fs_entry :=
  list_to_map
    [(v3, Directory);
     ("/repo/packages/core/src/v3/index.ts", file [export_from ["A"; "B"] "./foo"]);
     ("/repo/packages/core/src/v3/foo.ts",
      file [export_const "A"; export_const "B"])].

(** [import { A, B as C } from "@trigger.dev/core/v3";] *)
Definition import_A_B : import_declaration :=
  ImportDecl "@trigger.dev/core/v3"
    [ImportSpecifier "A" "A" "A"; ImportSpecifier "B" "C" "B as C"].

(** [Foo] declared in [v3/ab.ts], and a manifest that exports both
    [./v3/a] and [./v3/ab]. *)
Definition ab_ts : string := "/repo/packages/core/src/v3/ab.ts".
Definition fs_ab : gmap string fs_entry :=
  list_to_map [(v3, Directory); (ab_ts, file [export_const "Foo"])].

(** A directory [v3/utils] that holds an [index.ts]. *)
Definition fs_utils : gmap string fs_entry :=
  list_to_map
    [(v3, Directory);
     ("/repo/packages/core/src/v3/utils", Directory);
     ("/repo/packages/core/src/v3/utils/index.ts", file [export_const "Foo"])].




(** [import core from "@trigger.dev/core";] *)
Definition import_default : import_declaration :=
  ImportDecl "@trigger.dev/core" [ImportDefaultSpecifier "core" "core"].





End Scenario.

(** ** Further notions for the walker and the driver *)

(** The test of the first branch of the [ExportNamedDeclaration] visitor. *)
Definition node_declares (specifier : string) (node : export_node) : bool :=
  match node with
  | ExportNamedDeclaration (Some d) _ _ => declares d specifier
  | _ => false
  end.

(** An export that carries a declaration: [export const ...],
    [export function ...], [export class ...], [export type ...], ... *)
Definition is_declaration_export (node : export_node) : Prop :=
  match node with
  | ExportNamedDeclaration (Some _) _ _ => True
  | _ => False
  end.

(** [p] is a file that parses and exports a variable, function or class
    declaration of the name. *)
Definition declared_in (fs : gmap string fs_entry) (p specifier : string)
  : Prop :=
  exists ast,
    fs !! p = Some (File (Some ast)) /\
    existsb (node_declares specifier) ast = true.

(** The values [foundPath] takes in a sound walk: [null] or a file that
    declares the name. *)
Definition found (fs : gmap string fs_entry) (specifier : string)
    (v : option string) : Prop :=
  forall p, v = Some p -> declared_in fs p specifier.

(** What a recursive call answers: such a value, in the form [v ? v : null]. *)
Definition answer (fs : gmap string fs_entry) (specifier : string)
    (v : option string) : Prop :=
  or_null v = v /\ found fs specifier v.

(** What a walker computation may return and may throw. *)
Definition outcome_only {A} (returns : A -> Prop) (throws : js_exception -> Prop)
    (m : walker A) : Prop :=
  forall st,
    match m st with
    | Ret (a, _) => returns a
    | Throw e => throws e
    | OutOfFuel => True
    end.

(** The exceptions of a walk that do not come from its starting path: the
    [index.ts] of a directory read as a file when it is a directory itself,
    a file that does not parse, or a [TypeError]. *)
Definition walk_exception (fs : gmap string fs_entry) (e : js_exception)
  : Prop :=
  match e with
  | ReadError p =>
      fs !! p = Some Directory /\
      exists dir, fs !! dir = Some Directory /\ p = Path.join dir "index.ts"
  | SyntaxError p => fs !! p = Some (File None)
  | TypeError _ => True
  | ENOENT _ => False
  | Error _ => False
  end.

(** The exceptions of a walk started at [start]: those, or [ENOENT] for a
    starting path that does not exist. *)
Definition start_exception (fs : gmap string fs_entry) (start : string)
    (e : js_exception) : Prop :=
  walk_exception fs e \/ (e = ENOENT start /\ fs !! start = None).

(** [s] contains [sep]. *)
Definition contains (sep s : string) : Prop :=
  exists a b, s = a +:+ sep +:+ b.

(** [before] and [after] are what surrounds the first occurrence of [sep] in
    [s]: no occurrence starts further left. *)
Definition first_occurrence (sep s before after : string) : Prop :=
  s = before +:+ sep +:+ after /\
  forall a b, s = a +:+ sep +:+ b -> String.length before <= String.length a.



(** A specifier without [imported]: a default or a namespace import. *)
Definition unnamed_specifier (s : import_specifier) : Prop :=
  match s with
  | ImportSpecifier _ _ _ => False
  | _ => True
  end.

(** ** The GitHub task wrappers: the request of a repository task *)

Module GithubRun.

(** [const [owner, repo] = params.repo.split("/")]: [None] is [undefined]. *)
Definition owner_and_repo (repo : string) : option string * option string :=
  let parts := JsString.split_char "/" repo in
  (parts !! 0%nat, parts !! 1%nat).

(** The argument of [client.rest.issues.create] in [createIssue.run]. *)
Record issues_create := IssuesCreate {
  ic_owner : option string;
  ic_repo : option string;
  ic_title : string
}.

Definition createIssue_request (title repo : string) : issues_create :=
  let '(owner, repo) := owner_and_repo repo in
  IssuesCreate owner repo title.

End GithubRun.

(** * Properties *)

(** ** The walker keeps the latest allow-list match *)

Section Tracking.

Variable cwd : string.
Variable fs : gmap string fs_entry.
Variable allowed : list string.

Lemma last_match_nil d : last_match d [] = d.
Proof. reflexivity. Qed.

Lemma last_match_cons d b l : last_match d (b :: l) = last_match (Some b) l.
Proof.
  unfold last_match. destruct l as [|c l]; [reflexivity|].
  change (last (b :: c :: l)) with (last (c :: l)).
  destruct (last (c :: l)) eqn:E; [reflexivity|].
  apply last_None in E. discriminate.
Qed.

Lemma last_match_app d l1 l2 :
  last_match d (l1 ++ l2) = last_match (last_match d l1) l2.
Proof.
  unfold last_match. rewrite last_app.
  destruct (last l2); reflexivity.
Qed.

Lemma all_matches_app l1 l2 :
  all_matches allowed (l1 ++ l2) =
  (all_matches allowed l1 ++ all_matches allowed l2)%list.
Proof. unfold all_matches. rewrite map_app. apply concat_app. Qed.

Lemma all_matches_singleton f :
  all_matches allowed [f] = matches allowed f.
Proof. unfold all_matches. cbn [map concat]. apply app_nil_r. Qed.

Lemma classify_spec filePath l st st' :
  classify filePath l st = Ret (tt, st') ->
  visited st' = visited st /\
  barrelFile st' = last_match (barrelFile st) (matches l filePath).
Proof.
  revert st. induction l as [|a l IH]; intros st H.
  - inversion H; subst. split; [reflexivity|].
    unfold matches. destruct (pathToCorePath filePath); reflexivity.
  - cbn [classify] in H. unfold mbind, walker_bind, lift in H.
    unfold matches in *.
    destruct (pathToCorePath filePath) as [cp| |] eqn:Ecp; try discriminate.
    rewrite filter_cons.
    destruct (JsString.startsWith cp a) eqn:Es.
    + cbn in H. apply IH in H. cbn in H. destruct H as [Hv Hb].
      split; [exact Hv|]. rewrite Hb.
      destruct (decide (true = true)); [|congruence].
      rewrite last_match_cons. reflexivity.
    + cbn in H. apply IH in H. destruct H as [Hv Hb].
      split; [exact Hv|]. rewrite Hb.
      destruct (decide (false = true)); [discriminate|reflexivity].
Qed.

Lemma tracks_ret {A} (a : A) : tracks allowed (mret a).
Proof.
  intros st a' st' H. inversion H; subst. exists []. split; reflexivity.
Qed.

Lemma tracks_lift {A} (o : outcome A) : tracks allowed (lift o).
Proof.
  intros st a' st' H. unfold lift in H. destruct o; inversion H; subst.
  exists []. split; reflexivity.
Qed.

Lemma tracks_bind {A B} (m : walker A) (f : A -> walker B) :
  tracks allowed m -> (forall a, tracks allowed (f a)) ->
  tracks allowed (m ≫= f).
Proof.
  intros Hm Hf st b st' H. unfold mbind, walker_bind in H.
  destruct (m st) as [[a st1]| |] eqn:E; try discriminate.
  destruct (Hm _ _ _ E) as (n1 & Hv1 & Hb1).
  destruct (Hf a _ _ _ H) as (n2 & Hv2 & Hb2).
  exists (n2 ++ n1)%list. split.
  - rewrite Hv2, Hv1. apply app_assoc.
  - rewrite Hb2, Hb1, rev_app_distr, all_matches_app, last_match_app.
    reflexivity.
Qed.

Section Visit.

Variable rec : string -> string -> walker (option string).
Hypothesis rec_tracks : forall f s, tracks allowed (rec f s).
Variables fileOrDir filePath specifier : string.

Lemma tracks_follow_source sourcePath :
  tracks allowed (follow_source cwd fs rec fileOrDir specifier sourcePath).
Proof.
  unfold follow_source. apply tracks_bind; [apply tracks_lift|].
  intros dir. destruct (or_null _); [apply rec_tracks|apply tracks_ret].
Qed.

Lemma tracks_visit_specifiers source specs foundPath :
  tracks allowed
    (visit_specifiers cwd fs rec fileOrDir specifier source specs foundPath).
Proof.
  induction specs as [|e r IH]; cbn [visit_specifiers].
  - apply tracks_ret.
  - destruct (String.eqb _ _); [|exact IH].
    destruct source as [sourcePath|]; [|apply tracks_lift].
    apply tracks_bind; [apply tracks_follow_source|].
    intros v. destruct (or_null v); [apply tracks_ret|exact IH].
Qed.

Lemma tracks_visit node foundPath :
  tracks allowed
    (visit cwd fs rec fileOrDir filePath specifier node foundPath).
Proof.
  destruct node as [[d|] specs source|sourcePath]; cbn [visit].
  - destruct (declares d specifier); apply tracks_ret.
  - apply tracks_visit_specifiers.
  - apply tracks_bind; [apply tracks_follow_source|].
    intros v. destruct (or_null v); apply tracks_ret.
Qed.

Lemma tracks_traverse ast foundPath :
  tracks allowed
    (traverse cwd fs rec fileOrDir filePath specifier ast foundPath).
Proof.
  revert foundPath. induction ast as [|node r IH]; intros foundPath;
    cbn [traverse].
  - apply tracks_ret.
  - apply tracks_bind; [apply tracks_visit|]. intros v. apply IH.
Qed.

End Visit.

Lemma tracks_resolveExport fuel :
  forall fileOrDir specifier,
    tracks allowed (resolveExport cwd fs allowed fuel fileOrDir specifier).
Proof.
  induction fuel as [|fuel IH]; intros fileOrDir specifier.
  - intros st a st' H. discriminate.
  - cbn [resolveExport]. apply tracks_bind; [apply tracks_lift|].
    intros isDir.
    set (filePath := if isDir then _ else _).
    destruct (negb _); [apply tracks_ret|].
    intros st a st' H. unfold mbind at 1, walker_bind at 1 in H.
    cbn [note_visited] in H.
    unfold mbind at 1, walker_bind at 1 in H.
    destruct (classify _ _ _) as [[[] st1]| |] eqn:Ec; try discriminate.
    apply classify_spec in Ec. cbn in Ec. destruct Ec as [Hv1 Hb1].
    assert (Hrest : tracks allowed
      (ast ← lift (read_and_parse fs filePath);
       foundPath ← traverse cwd fs (resolveExport cwd fs allowed fuel)
                     fileOrDir filePath specifier ast None;
       mret (or_null foundPath))).
    { apply tracks_bind; [apply tracks_lift|]. intros ast.
      apply tracks_bind; [apply tracks_traverse; exact IH|].
      intros v. apply tracks_ret. }
    destruct (Hrest _ _ _ H) as (n2 & Hv2 & Hb2).
    exists (n2 ++ [filePath])%list. split.
    + rewrite Hv2, Hv1. rewrite <- app_assoc. reflexivity.
    + rewrite Hb2, Hb1, rev_app_distr, all_matches_app, last_match_app.
      cbn [rev app]. rewrite all_matches_singleton. reflexivity.
Qed.

End Tracking.

(** ** More fuel does not change a result *)

Section Fuel.

Variable cwd : string.
Variable fs : gmap string fs_entry.
Variable allowed : list string.

Lemma refines_refl {A} (m : walker A) : refines m m.
Proof. intros st _. reflexivity. Qed.

Lemma refines_bind {A B} (m m' : walker A) (f f' : A -> walker B) :
  refines m m' -> (forall a, refines (f a) (f' a)) ->
  refines (m ≫= f) (m' ≫= f').
Proof.
  intros Hm Hf st H. unfold mbind, walker_bind in *.
  destruct (m st) as [[a st1]|e|] eqn:E.
  - rewrite Hm, E by (rewrite E; discriminate). apply Hf. exact H.
  - rewrite Hm, E by (rewrite E; discriminate). reflexivity.
  - contradiction.
Qed.

Section Visit.

Variables rec rec' : string -> string -> walker (option string).
Hypothesis rec_refines : forall f s, refines (rec f s) (rec' f s).
Variables fileOrDir filePath specifier : string.

Lemma refines_follow_source sourcePath :
  refines (follow_source cwd fs rec fileOrDir specifier sourcePath)
          (follow_source cwd fs rec' fileOrDir specifier sourcePath).
Proof.
  unfold follow_source. apply refines_bind; [apply refines_refl|].
  intros dir. destruct (or_null _); [apply rec_refines|apply refines_refl].
Qed.

Lemma refines_visit_specifiers source specs foundPath :
  refines
    (visit_specifiers cwd fs rec fileOrDir specifier source specs foundPath)
    (visit_specifiers cwd fs rec' fileOrDir specifier source specs foundPath).
Proof.
  induction specs as [|e r IH]; cbn [visit_specifiers].
  - apply refines_refl.
  - destruct (String.eqb _ _); [|exact IH].
    destruct source as [sourcePath|]; [|apply refines_refl].
    apply refines_bind; [apply refines_follow_source|].
    intros v. destruct (or_null v); [apply refines_refl|exact IH].
Qed.

Lemma refines_traverse ast foundPath :
  refines (traverse cwd fs rec fileOrDir filePath specifier ast foundPath)
          (traverse cwd fs rec' fileOrDir filePath specifier ast foundPath).
Proof.
  revert foundPath. induction ast as [|node r IH]; intros foundPath;
    cbn [traverse].
  - apply refines_refl.
  - apply refines_bind; [|intros v; apply IH].
    destruct node as [[d|] specs source|sourcePath]; cbn [visit].
    + apply refines_refl.
    + apply refines_visit_specifiers.
    + apply refines_bind; [apply refines_follow_source|].
      intros v. apply refines_refl.
Qed.

End Visit.

Lemma resolveExport_more_fuel fuel :
  forall fileOrDir specifier,
    refines (resolveExport cwd fs allowed fuel fileOrDir specifier)
            (resolveExport cwd fs allowed (S fuel) fileOrDir specifier).
Proof.
  induction fuel as [|fuel IH]; intros fileOrDir specifier.
  - intros st H. contradiction.
  - change (resolveExport cwd fs allowed (S (S fuel)) fileOrDir specifier)
      with
      (isDir ← lift (lstat_isDirectory fs fileOrDir);
       let filePath :=
         if isDir : bool then Path.join fileOrDir "index.ts" else fileOrDir in
       if negb (existsSync fs filePath) then mret None
       else
         _ ← note_visited filePath;
         _ ← classify filePath allowed;
         ast ← lift (read_and_parse fs filePath);
         foundPath ← traverse cwd fs (resolveExport cwd fs allowed (S fuel))
                       fileOrDir filePath specifier ast None;
         mret (or_null foundPath)).
    cbn [resolveExport].
    apply refines_bind; [apply refines_refl|]. intros isDir. cbv zeta.
    destruct (negb _); [apply refines_refl|].
    apply refines_bind; [apply refines_refl|]. intros _.
    apply refines_bind; [apply refines_refl|]. intros _.
    apply refines_bind; [apply refines_refl|]. intros ast.
    apply refines_bind; [|intros v; apply refines_refl].
    apply refines_traverse. exact IH.
Qed.

Lemma resolveExport_fuel_add extra fuel fileOrDir specifier st :
  resolveExport cwd fs allowed fuel fileOrDir specifier st <> OutOfFuel ->
  resolveExport cwd fs allowed (extra + fuel) fileOrDir specifier st =
  resolveExport cwd fs allowed fuel fileOrDir specifier st.
Proof.
  intros H. induction extra as [|extra IH]; [reflexivity|].
  cbn [Nat.add]. rewrite <- IH. apply resolveExport_more_fuel.
  rewrite IH. exact H.
Qed.

End Fuel.

(** ** Unfolding the walker at a file *)

Section Steps.

Variable cwd : string.
Variable fs : gmap string fs_entry.
Variable allowed : list string.

Lemma classify_returns filePath corePath l st :
  pathToCorePath filePath = Ret corePath ->
  exists st', classify filePath l st = Ret (tt, st').
Proof.
  intros Hcp. revert st. induction l as [|a l IH]; intros st.
  - exists st. reflexivity.
  - cbn [classify]. unfold mbind, walker_bind, lift. rewrite Hcp.
    destruct (JsString.startsWith corePath a); cbn; apply IH.
Qed.

Lemma follow_source_eq rec fileOrDir specifier sourcePath dir p st :
  source_dir fs fileOrDir = Ret dir ->
  or_null (tryResolveSourcePath cwd fs dir sourcePath) = Some p ->
  follow_source cwd fs rec fileOrDir specifier sourcePath st =
  rec p specifier st.
Proof.
  intros Hd Hp. unfold follow_source, mbind, walker_bind, lift.
  rewrite Hd, Hp. reflexivity.
Qed.

(** One call on an existing, parseable file whose core path is defined:
    after the bookkeeping, what is left is the traversal. *)
Lemma resolveExport_file fuel file specifier st corePath ast :
  lstat_isDirectory fs file = Ret false ->
  pathToCorePath file = Ret corePath ->
  read_and_parse fs file = Ret ast ->
  exists st1,
    resolveExport cwd fs allowed (S fuel) file specifier st =
    (foundPath ← traverse cwd fs (resolveExport cwd fs allowed fuel)
                   file file specifier ast None;
     mret (or_null foundPath)) st1.
Proof.
  intros Hl Hcp Hr.
  destruct (classify_returns file corePath allowed
              (WalkState (barrelFile st) (file :: visited st)) Hcp)
    as [st1 Hc].
  exists st1. cbn [resolveExport].
  unfold mbind at 1, walker_bind at 1, lift at 1. rewrite Hl.
  assert (He : existsSync fs file = true).
  { unfold existsSync. unfold read_and_parse in Hr.
    destruct (fs !! file); [reflexivity|discriminate]. }
  rewrite He. cbn [negb].
  unfold mbind at 1, walker_bind at 1. cbn [note_visited].
  unfold mbind at 1, walker_bind at 1. rewrite Hc.
  unfold mbind at 1, walker_bind at 1, lift at 1. rewrite Hr.
  reflexivity.
Qed.

End Steps.

(** ** The walker on a cycle of re-exports *)

Import Scenario.

(** C3, on the code: with [v3/a.ts] holding [export * from "./b"] and
    [v3/b.ts] holding [export * from "./a"], a call of [resolveExport] on
    either file has not returned at any recursion depth, whatever the
    allow-list, the name looked for and the walker's state: where the claim
    asks for termination, the code recurses without end. *)
Theorem C3_cyclic_reexport_never_returns :
  forall fuel allowed specifier st,
    resolveExport cwd fs_cycle allowed fuel a_ts specifier st = OutOfFuel /\
    resolveExport cwd fs_cycle allowed fuel b_ts specifier st = OutOfFuel.
Proof.
  induction fuel as [|fuel IH]; intros allowed specifier st.
  - split; reflexivity.
  - split.
    + destruct (resolveExport_file cwd fs_cycle allowed fuel a_ts specifier st
                  "@trigger.dev/core/v3/a.ts" [ExportAllDeclaration "./b"])
        as [st1 ->]; [vm_compute; reflexivity..|].
      cbn [traverse visit]. unfold mbind, walker_bind.
      rewrite (follow_source_eq cwd fs_cycle _ a_ts specifier "./b" v3 b_ts);
        [|vm_compute; reflexivity..].
      rewrite (proj2 (IH allowed specifier st1)). reflexivity.
    + destruct (resolveExport_file cwd fs_cycle allowed fuel b_ts specifier st
                  "@trigger.dev/core/v3/b.ts" [ExportAllDeclaration "./a"])
        as [st1 ->]; [vm_compute; reflexivity..|].
      cbn [traverse visit]. unfold mbind, walker_bind.
      rewrite (follow_source_eq cwd fs_cycle _ b_ts specifier "./a" v3 a_ts);
        [|vm_compute; reflexivity..].
      rewrite (proj1 (IH allowed specifier st1)). reflexivity.
Qed.

(** ** Which match the traversal keeps *)

(** C2, on the code: the traversal does not stop at a match. In
    [v3/index.ts], [export const Foo] followed by [export * from "./b"],
    where [v3/b.ts] declares a [Foo] too, resolves [Foo] to [v3/b.ts]: the
    declaration in the current file does not take priority. With
    [export * from "./b"] followed by [export * from "./c"], both declaring
    [Foo], the result is [v3/c.ts]: the last successful resolution is
    returned, not the first, and both files have been gone through. This
    holds at every recursion depth that lets the call return. *)
Theorem C2_later_reexport_overrides :
  forall extra,
    returned (resolveExport cwd fs_shadowed [] (extra + 2) v3 "Foo"
                (WalkState None []))
      = Ret (Some "/repo/packages/core/src/v3/b.ts") /\
    resolveExport cwd fs_two_wildcards [] (extra + 2) v3 "Foo"
      (WalkState None [])
      = Ret (Some "/repo/packages/core/src/v3/c.ts",
             WalkState None ["/repo/packages/core/src/v3/c.ts";
                             "/repo/packages/core/src/v3/b.ts";
                             "/repo/packages/core/src/v3/index.ts"]).
Proof.
  intros extra.
  split; (rewrite resolveExport_fuel_add;
          [vm_compute; reflexivity|vm_compute; discriminate]).
Qed.

(** ** The recorded barrel file *)

(** C5, as amended: whenever [resolveExport] returns, found or not, the
    files it went through are added to the history and [barrelFile] holds the
    last allow-list entry matched by the core path of a file gone through,
    in the order of the visits and, within a file, of the allow-list; without
    any match it is left as it was. *)
Theorem C5_barrelFile_is_latest_match :
  forall cwd fs allowed fuel fileOrDir specifier st result st',
    resolveExport cwd fs allowed fuel fileOrDir specifier st
      = Ret (result, st') ->
    exists new,
      visited st' = (new ++ visited st)%list /\
      barrelFile st' =
        last_match (barrelFile st) (all_matches allowed (rev new)).
Proof.
  intros cwd0 fs allowed fuel fileOrDir specifier st result st' H.
  exact (tracks_resolveExport cwd0 fs allowed fuel fileOrDir specifier _ _ _ H).
Qed.

Lemma C5_barrelFile_is_latest_match_witness :
  exists new,
    ["/repo/packages/core/src/v3/ab.ts"] = (new ++ [])%list /\
    Some "@trigger.dev/core/v3/ab" =
      last_match None
        (all_matches ["@trigger.dev/core/v3/a"; "@trigger.dev/core/v3/ab"]
                     (rev new)).
Proof.
  apply (C5_barrelFile_is_latest_match cwd fs_ab
           ["@trigger.dev/core/v3/a"; "@trigger.dev/core/v3/ab"] 1 ab_ts "Foo"
           (WalkState None []) (Some ab_ts)
           (WalkState (Some "@trigger.dev/core/v3/ab") [ab_ts])).
  vm_compute. reflexivity.
Defined.

(** C5 as stated fails: with the allow-list of a manifest exporting [./v3/a]
    and [./v3/ab], the walk of [v3/ab.ts] records [@trigger.dev/core/v3/ab],
    the last entry its core path starts with, and not the first one,
    [@trigger.dev/core/v3/a]. *)
Lemma C5_counterexample :
  let allowed := getAllowedBarrelFiles ["./v3/a"; "./v3/ab"] in
  exists result st,
    resolveExport cwd fs_ab allowed 1 ab_ts "Foo" (WalkState None [])
      = Ret (result, st) /\
    Claimed.first_match None (all_matches allowed (rev (visited st)))
      = Some "@trigger.dev/core/v3/a" /\
    barrelFile st <>
      Claimed.first_match None (all_matches allowed (rev (visited st))).
Proof.
  eexists _, _. split; [vm_compute; reflexivity|].
  split; [vm_compute; reflexivity|]. vm_compute. discriminate.
Qed.

(** ** What [resolveSpecifier] returns *)





Section Specifier.

Variable cwd : string.
Variable fs : gmap string fs_entry.
Variable allowed : list string.
Variable tsconfig : loaded_config.

(** The shape of every return of [resolveSpecifier_run]. *)
Lemma resolveSpecifier_run_inv fuel importSource specifier v st :
  resolveSpecifier_run cwd fs allowed tsconfig fuel importSource specifier
    = Ret (v, st) ->
  exists corePath resolvedPath,
    resolveModulePath cwd fs tsconfig importSource = Ret corePath /\
    resolveExport cwd fs allowed fuel (Path.dirname corePath) specifier
      (WalkState None []) = Ret (resolvedPath, st) /\
    barrelFile st = last_match None (all_matches allowed (rev (visited st))) /\
    v = match or_null resolvedPath with
        | Some _ => match barrelFile st with
                    | Some b => JString b
                    | None => JUndefined
                    end
        | None => JNull
        end.
Proof.
  unfold resolveSpecifier_run, mbind, outcome_bind. intros H.
  destruct (resolveModulePath _ _ _ _) as [corePath| |]; try discriminate.
  destruct (resolveExport _ _ _ _ _ _ _) as [[resolvedPath st1]| |] eqn:E;
    try discriminate.
  exists corePath, resolvedPath.
  destruct (tracks_resolveExport _ _ _ _ _ _ _ _ _ E) as (new & Hv & Hb).
  cbn in Hv, Hb. rewrite app_nil_r in Hv. subst new.
  destruct (or_null resolvedPath); inversion H; subst; auto.
Qed.


(** ** The rule driver, from the fate of each specifier *)

Lemma specifier_fix_of_resolved fuel importSource imported local text p :
  resolveSpecifier cwd fs allowed tsconfig fuel importSource imported
    = Ret (JString p) ->
  JsString.truthy p = true ->
  specifier_fix_of cwd fs allowed tsconfig fuel importSource
    (ImportSpecifier imported local text) = Ret (Some (SpecifierFix text p)).
Proof.
  intros Hr Hp. unfold specifier_fix_of, mbind, outcome_bind.
  cbn [imported_name getText]. rewrite Hr, Hp. reflexivity.
Qed.

Lemma specifier_fix_of_unresolved fuel importSource imported local text v :
  resolveSpecifier cwd fs allowed tsconfig fuel importSource imported
    = Ret v ->
  jsval_truthy v = false ->
  specifier_fix_of cwd fs allowed tsconfig fuel importSource
    (ImportSpecifier imported local text) = Ret None.
Proof.
  intros Hr Hv. unfold specifier_fix_of, mbind, outcome_bind.
  cbn [imported_name getText]. rewrite Hr.
  destruct v as [| |s]; [reflexivity..|]. cbn in Hv. rewrite Hv. reflexivity.
Qed.

Lemma map_outcome_fixes_of fuel importSource specs fixes :
  fixes_of (resolveSpecifier cwd fs allowed tsconfig fuel importSource)
    specs fixes ->
  exists mapped,
    map_outcome (specifier_fix_of cwd fs allowed tsconfig fuel importSource)
      specs = Ret mapped /\
    omap id mapped = fixes.
Proof.
  induction 1 as [|imported local text p specs fixes Hr Hp _ IH
                  |imported local text v specs fixes Hr Hv _ IH].
  - exists []. split; reflexivity.
  - destruct IH as (mapped & Hm & Ho).
    exists (Some (SpecifierFix text p) :: mapped). split.
    + cbn [map_outcome].
      rewrite (specifier_fix_of_resolved _ _ _ _ _ _ Hr Hp), Hm. reflexivity.
    + cbn. rewrite Ho. reflexivity.
  - destruct IH as (mapped & Hm & Ho).
    exists (None :: mapped). split.
    + cbn [map_outcome].
      rewrite (specifier_fix_of_unresolved _ _ _ _ _ _ Hr Hv), Hm.
      reflexivity.
    + cbn. exact Ho.
Qed.

Lemma ImportDeclaration_fixes_of fuel node fixes :
  imp_source node ∈ blockedImportSources ->
  fixes_of (resolveSpecifier cwd fs allowed tsconfig fuel (imp_source node))
    (imp_specifiers node) fixes ->
  ImportDeclaration cwd fs allowed tsconfig fuel node =
  Ret (Some
         (match fixes with
          | [] =>
              Report "noTriggerCoreImport"
                [("importSource", imp_source node)] None
          | _ :: _ =>
              Report "noTriggerCoreImportFixable"
                [("importSource", imp_source node);
                 ("name",
                  JsString.join ", " (map local_name (imp_specifiers node)));
                 ("resolvedPath",
                  JsString.join ", " (set_order [] (map path fixes)))]
                (Some (replaceText node
                         (JsString.join newline (map fix_statement fixes))))
          end)).
Proof.
  intros Hb Hf. unfold ImportDeclaration.
  rewrite (bool_decide_eq_true_2 _ Hb).
  destruct (map_outcome_fixes_of _ _ _ _ Hf) as (mapped & Hm & Ho).
  unfold mbind, outcome_bind. rewrite Hm, Ho.
  destruct fixes; reflexivity.
Qed.

End Specifier.

(** ** The rule on a blocked import *)

(** C4, as amended: when at least one specifier of a blocked import resolves,
    the rule reports the fixable diagnostic whose fix replaces the whole
    import by one statement per resolved specifier, in the order of the
    specifiers, each of the shape [import { <text> } from '<path>';] with the
    specifier's own source text and the path it resolved to, joined by line
    feeds. Specifiers that resolve to the same path are not merged. *)
Theorem C4_one_statement_per_resolved_specifier :
  forall cwd fs allowed tsconfig fuel node f fixes,
    imp_source node ∈ blockedImportSources ->
    fixes_of (resolveSpecifier cwd fs allowed tsconfig fuel (imp_source node))
      (imp_specifiers node) (f :: fixes) ->
    exists data,
      ImportDeclaration cwd fs allowed tsconfig fuel node =
      Ret (Some (Report "noTriggerCoreImportFixable" data
                   (Some (replaceText node
                            (JsString.join newline
                               (map (fun x => "import { " +:+ original x +:+
                                              " } from '" +:+ path x +:+ "';")
                                    (f :: fixes))))))).
Proof.
  intros cwd0 fs allowed tsconfig0 fuel node f fixes Hblocked Hf.
  rewrite (ImportDeclaration_fixes_of _ _ _ _ _ _ _ Hblocked Hf).
  eexists. reflexivity.
Qed.

Lemma C4_one_statement_per_resolved_specifier_witness :
  exists data,
    ImportDeclaration cwd fs_two_names ["@trigger.dev/core/v3/foo"] tsconfig 2
      import_A_B =
    Ret (Some (Report "noTriggerCoreImportFixable" data
                 (Some (replaceText import_A_B
                          (JsString.join newline
                             ["import { A } from '@trigger.dev/core/v3/foo';";
                              "import { B as C } from '@trigger.dev/core/v3/foo';"]))))).
Proof.
  refine (C4_one_statement_per_resolved_specifier cwd fs_two_names
            ["@trigger.dev/core/v3/foo"] tsconfig 2 import_A_B
            (SpecifierFix "A" "@trigger.dev/core/v3/foo")
            [SpecifierFix "B as C" "@trigger.dev/core/v3/foo"] _ _).
  - vm_compute. right. left.
  - apply fixes_of_resolved; [vm_compute; reflexivity|reflexivity|].
    apply fixes_of_resolved; [vm_compute; reflexivity|reflexivity|].
    apply fixes_of_nil.
Defined.

(** C4 as stated fails: [import { A, B as C }] where both names resolve to
    the same path gets a fix of two statements, one per specifier, where
    grouping by resolved path gives a single statement for the one path. *)
Lemma C4_counterexample :
  let fixes := [SpecifierFix "A" "@trigger.dev/core/v3/foo";
                SpecifierFix "B as C" "@trigger.dev/core/v3/foo"] in
  exists data text,
    ImportDeclaration cwd fs_two_names ["@trigger.dev/core/v3/foo"] tsconfig 2
      import_A_B =
    Ret (Some (Report "noTriggerCoreImportFixable" data
                 (Some (replaceText import_A_B text)))) /\
    JsString.split_char "010" text =
      ["import { A } from '@trigger.dev/core/v3/foo';";
       "import { B as C } from '@trigger.dev/core/v3/foo';"] /\
    length (Claimed.grouped_statements fixes) = 1 /\
    text <> JsString.join newline (Claimed.grouped_statements fixes).
Proof.
  eexists _, _. split; [vm_compute; reflexivity|].
  split; [vm_compute; reflexivity|].
  split; [vm_compute; reflexivity|]. vm_compute. discriminate.
Qed.

(** X16: for an import from a blocked source all of whose specifiers are named
    and come back unresolved ([null], [undefined] or an empty string), the rule
    makes the report [noTriggerCoreImport], with the import source as its data
    and without a fix; and a walk that returns not-found makes
    [resolveSpecifier] return [null]. *)
Theorem ImportDeclaration_all_unresolved :
  forall cwd fs allowed tsconfig fuel node,
    imp_source node ∈ blockedImportSources ->
    Forall (fun s =>
              exists imported local text v,
                s = ImportSpecifier imported local text /\
                resolveSpecifier cwd fs allowed tsconfig fuel (imp_source node)
                  imported = Ret v /\
                jsval_truthy v = false)
           (imp_specifiers node) ->
    ImportDeclaration cwd fs allowed tsconfig fuel node =
      Ret (Some (Report "noTriggerCoreImport"
                   [("importSource", imp_source node)] None)) /\
    (forall imported corePath st,
       resolveModulePath cwd fs tsconfig (imp_source node) = Ret corePath ->
       resolveExport cwd fs allowed fuel (Path.dirname corePath) imported
         (WalkState None []) = Ret (None, st) ->
       resolveSpecifier cwd fs allowed tsconfig fuel (imp_source node) imported
         = Ret JNull).
Proof.
  intros cwd0 fs allowed tsconfig0 fuel node Hblocked Hall. split.
  - apply (ImportDeclaration_fixes_of _ _ _ _ _ _ [] Hblocked).
    induction Hall as [|s specs (imported & local & text & v & -> & Hr & Hv) _ IH].
    + constructor.
    + eapply fixes_of_unresolved; eassumption.
  - intros imported corePath st Hm He.
    unfold resolveSpecifier, resolveSpecifier_run, mbind, outcome_bind.
    rewrite Hm, He. reflexivity.
Qed.

Lemma ImportDeclaration_all_unresolved_witness :
  ImportDeclaration cwd fs_foo (getAllowedBarrelFiles ["."; "./v3"; "./v3/foo"])
    tsconfig 2 import_Bar =
  Ret (Some (Report "noTriggerCoreImport"
               [("importSource", "@trigger.dev/core/v3")] None)).
Proof.
  refine (proj1
    (ImportDeclaration_all_unresolved cwd fs_foo
       (getAllowedBarrelFiles ["."; "./v3"; "./v3/foo"]) tsconfig 2 import_Bar
       _ _)).
  - vm_compute. right. left.
  - constructor; [|constructor].
    exists "Bar", "Bar", "Bar", JNull.
    split; [reflexivity|]. split; [vm_compute; reflexivity|reflexivity].
Defined.

(** ** The allow-list builder *)

Lemma allowed_entry_eq key :
  allowed_entry key =
  if String.eqb (JsString.strip_dot_slash key) "package.json" then None
  else Some (match JsString.strip_dot_slash key with
             | EmptyString => "@trigger.dev/core"
             | k => "@trigger.dev/core/" +:+ k
             end).
Proof.
  unfold allowed_entry. destruct (String.eqb _ _); [reflexivity|].
  destruct (JsString.strip_dot_slash key); reflexivity.
Qed.

(** C6, as amended: an entry is in the result exactly when it comes from a key
    of the export map that, once a leading [.] and a [/] after it are
    stripped, is not [package.json], by joining what is left to
    [@trigger.dev/core] (the alias alone when nothing is left), and is not one
    of the two blocked import sources. For the exports [.] and [./v3] the
    result is empty, since [@trigger.dev/core/v3] is blocked as well as the
    root; a further export such as [./v3/foo] is kept. *)
Theorem C6_getAllowedBarrelFiles_entries :
  (forall exports x,
     x ∈ getAllowedBarrelFiles exports <->
     exists key,
       key ∈ exports /\
       JsString.strip_dot_slash key <> "package.json" /\
       x = match JsString.strip_dot_slash key with
           | EmptyString => "@trigger.dev/core"
           | k => "@trigger.dev/core/" +:+ k
           end /\
       x ∉ blockedImportSources) /\
  getAllowedBarrelFiles ["."; "./v3"] = [] /\
  getAllowedBarrelFiles ["."; "./v3"; "./v3/foo"; "./package.json"]
    = ["@trigger.dev/core/v3/foo"].
Proof.
  split; [|split; vm_compute; reflexivity].
  intros exports x. unfold getAllowedBarrelFiles.
  rewrite list_elem_of_filter, list_elem_of_omap. split.
  - intros (Hnb & key & Hin & Hk). exists key.
    rewrite allowed_entry_eq in Hk.
    destruct (String.eqb _ _) eqn:E; [discriminate|].
    apply String.eqb_neq in E. inversion Hk; subst x. auto.
  - intros (key & Hin & Hne & -> & Hnb). split; [exact Hnb|].
    exists key. split; [exact Hin|]. rewrite allowed_entry_eq.
    apply String.eqb_neq in Hne. rewrite Hne. reflexivity.
Qed.

Lemma C6_getAllowedBarrelFiles_entries_witness :
  "@trigger.dev/core/v3/foo" ∈ getAllowedBarrelFiles ["."; "./v3"; "./v3/foo"].
Proof.
  apply (proj1 C6_getAllowedBarrelFiles_entries). exists "./v3/foo".
  split; [right; right; left|]. split; [discriminate|].
  split; [reflexivity|]. vm_compute. intros H.
  inversion H as [|? ? ? H1]; subst. inversion H1 as [|? ? ? H2]; subst.
  inversion H2.
Defined.

(** C6 as stated fails: for the exports [.] and [./v3], the result is not
    the single entry [@trigger.dev/core/v3]; that entry is a blocked import
    source too and is filtered out with the root. *)
Lemma C6_counterexample :
  getAllowedBarrelFiles ["."; "./v3"] <> ["@trigger.dev/core/v3"].
Proof. vm_compute. discriminate. Qed.

(** ** The relative specifier resolver *)

Lemma append_empty_r s : s +:+ "" = s.
Proof.
  induction s as [|c s IH]; [reflexivity|].
  change (String c (s +:+ "") = String c s). rewrite IH. reflexivity.
Qed.

(** C8, on the code: the first probe is a test for existence, which a
    directory passes, so the result is always that of the five extension
    probes alone and the index files are never probed. For the directory
    [v3/utils] holding an [index.ts], the code returns the directory, where a
    resolver whose probes test for files returns [v3/utils/index.ts]. *)
Theorem C8_index_files_never_probed :
  (forall cwd fs baseDir sourcePath,
     tryResolveSourcePath cwd fs baseDir sourcePath =
     probe_extensions cwd fs baseDir sourcePath possibleExtensions) /\
  tryResolveSourcePath cwd fs_utils v3 "./utils"
    = Some "/repo/packages/core/src/v3/utils" /\
  Claimed.tryResolveSourcePath cwd fs_utils v3 "./utils"
    = Some "/repo/packages/core/src/v3/utils/index.ts".
Proof.
  split; [|split; vm_compute; reflexivity].
  intros cwd0 fs baseDir sourcePath. unfold tryResolveSourcePath.
  destruct (probe_extensions _ _ _ _ _) as [p|] eqn:E; [reflexivity|].
  unfold possibleExtensions in E. cbn [probe_extensions] in E.
  rewrite append_empty_r in E.
  unfold exists_and_isDirectory.
  destruct (existsSync fs (Path.resolve cwd0 [baseDir; sourcePath]));
    [discriminate|reflexivity].
Qed.

(** ** The error handler of the GitHub tasks *)

Import Github.




(** * Further properties of the code *)

(** ** Lifting conditions on results and exceptions through the walker *)

Lemma outcome_only_ret {A} (R : A -> Prop) (T : js_exception -> Prop) (a : A) :
  R a -> outcome_only R T (mret a).
Proof. intros H st. exact H. Qed.

Lemma outcome_only_lift {A} (R : A -> Prop) (T : js_exception -> Prop)
    (o : outcome A) :
  match o with Ret a => R a | Throw e => T e | OutOfFuel => True end ->
  outcome_only R T (lift o).
Proof. intros H st. unfold lift. destruct o; exact H. Qed.

Lemma outcome_only_bind {A B} (R : A -> Prop) (R' : B -> Prop)
    (T : js_exception -> Prop) (m : walker A) (f : A -> walker B) :
  outcome_only R T m -> (forall a, R a -> outcome_only R' T (f a)) ->
  outcome_only R' T (m ≫= f).
Proof.
  intros Hm Hf st. unfold mbind, walker_bind. specialize (Hm st).
  destruct (m st) as [[a st1]|e|]; [|exact Hm|exact I].
  exact (Hf a Hm st1).
Qed.

Lemma outcome_only_weaken {A} (R R' : A -> Prop) (T T' : js_exception -> Prop)
    (m : walker A) :
  (forall a, R a -> R' a) -> (forall e, T e -> T' e) ->
  outcome_only R T m -> outcome_only R' T' m.
Proof.
  intros HR HT Hm st. specialize (Hm st).
  destruct (m st) as [[a st1]|e|]; auto.
Qed.

Lemma or_null_idem v : or_null (or_null v) = or_null v.
Proof. destruct v as [p|]; [|reflexivity]. cbn. destruct (JsString.truthy p) eqn:E; cbn; rewrite ?E; reflexivity. Qed.

Lemma or_null_Some v p : or_null v = Some p -> v = Some p /\ JsString.truthy p = true.
Proof.
  destruct v as [q|]; [|discriminate]. cbn.
  destruct (JsString.truthy q) eqn:E; [|discriminate]. intros [= ->]. auto.
Qed.

(** ** The relative specifier resolver returns the first probe that exists *)

Lemma probe_extensions_Some cwd fs baseDir sourcePath exts p :
  probe_extensions cwd fs baseDir sourcePath exts = Some p <->
  exists pre ext post,
    exts = (pre ++ ext :: post)%list /\
    p = Path.resolve cwd [baseDir; sourcePath +:+ ext] /\
    existsSync fs p = true /\
    Forall (fun e => existsSync fs
                       (Path.resolve cwd [baseDir; sourcePath +:+ e]) = false)
           pre.
Proof.
  induction exts as [|e r IH]; cbn [probe_extensions].
  - split; [discriminate|]. intros (pre & ext & post & H & _).
    destruct pre; discriminate.
  - destruct (existsSync fs (Path.resolve cwd [baseDir; sourcePath +:+ e]))
      eqn:E.
    + split.
      * intros [= <-]. exists [], e, r. repeat split; auto.
      * intros (pre & ext & post & Hl & -> & Hex & Hpre).
        destruct pre as [|e' pre]; cbn in Hl; inversion Hl; subst.
        -- reflexivity.
        -- inversion Hpre; subst. congruence.
    + rewrite IH. split.
      * intros (pre & ext & post & -> & -> & Hex & Hpre).
        exists (e :: pre), ext, post. repeat split; auto.
      * intros (pre & ext & post & Hl & -> & Hex & Hpre).
        destruct pre as [|e' pre]; cbn in Hl; inversion Hl; subst.
        -- congruence.
        -- inversion Hpre; subst. exists pre, ext, post. repeat split; auto.
Qed.

Lemma tryResolveSourcePath_probe cwd fs baseDir sourcePath :
  tryResolveSourcePath cwd fs baseDir sourcePath =
  probe_extensions cwd fs baseDir sourcePath possibleExtensions.
Proof.
  unfold tryResolveSourcePath.
  destruct (probe_extensions _ _ _ _ _) as [p|] eqn:E; [reflexivity|].
  unfold possibleExtensions in E. cbn [probe_extensions] in E.
  rewrite append_empty_r in E. unfold exists_and_isDirectory.
  destruct (existsSync fs (Path.resolve cwd [baseDir; sourcePath]));
    [discriminate|reflexivity].
Qed.

(** X1: [tryResolveSourcePath] returns a path exactly when that path is the
    specifier with one of the five extensions appended, resolved against the
    base directory, it exists, and no earlier extension gives an existing
    path. *)
Theorem tryResolveSourcePath_first_existing :
  forall cwd fs baseDir sourcePath p,
    tryResolveSourcePath cwd fs baseDir sourcePath = Some p <->
    exists pre ext post,
      [""; ".ts"; ".tsx"; ".js"; ".jsx"] = (pre ++ ext :: post)%list /\
      p = Path.resolve cwd [baseDir; sourcePath +:+ ext] /\
      existsSync fs p = true /\
      Forall (fun e => existsSync fs
                         (Path.resolve cwd [baseDir; sourcePath +:+ e]) = false)
             pre.
Proof.
  intros cwd0 fs baseDir sourcePath p. rewrite tryResolveSourcePath_probe.
  apply probe_extensions_Some.
Qed.

Lemma tryResolveSourcePath_first_existing_witness :
  tryResolveSourcePath Scenario.cwd Scenario.fs_foo Scenario.v3 "./foo"
  = Some "/repo/packages/core/src/v3/foo.ts".
Proof.
  apply (proj2 (tryResolveSourcePath_first_existing Scenario.cwd
                  Scenario.fs_foo Scenario.v3 "./foo"
                  "/repo/packages/core/src/v3/foo.ts")).
  exists [""], ".ts", [".tsx"; ".js"; ".jsx"].
  split; [reflexivity|]. split; [vm_compute; reflexivity|].
  split; [vm_compute; reflexivity|].
  constructor; [vm_compute; reflexivity|constructor].
Defined.

Lemma tryResolveSourcePath_exists cwd fs baseDir sourcePath p :
  tryResolveSourcePath cwd fs baseDir sourcePath = Some p ->
  existsSync fs p = true.
Proof.
  rewrite tryResolveSourcePath_probe. intros H.
  apply probe_extensions_Some in H as (pre & ext & post & _ & _ & Hex & _).
  exact Hex.
Qed.

(** ** What the walker can return and throw *)

Section WalkOutcomes.

Variable cwd : string.
Variable fs : gmap string fs_entry.
Variable allowed : list string.

Lemma classify_outcome filePath l :
  outcome_only (fun _ => True) (walk_exception fs) (classify filePath l).
Proof.
  induction l as [|a l IH]; cbn [classify].
  - apply outcome_only_ret. exact I.
  - apply outcome_only_bind with (R := fun _ => True).
    + apply outcome_only_lift. unfold pathToCorePath.
      destruct (JsString.split_index1 _ _); exact I.
    + intros corePath _.
      apply outcome_only_bind with (R := fun _ => True); [|intros _ _; exact IH].
      destruct (JsString.startsWith corePath a); intros st; exact I.
Qed.

Lemma read_and_parse_outcome filePath :
  existsSync fs filePath = true ->
  (fs !! filePath = Some Directory ->
   exists dir, fs !! dir = Some Directory /\ filePath = Path.join dir "index.ts") ->
  match read_and_parse fs filePath with
  | Ret ast => fs !! filePath = Some (File (Some ast))
  | Throw e => walk_exception fs e
  | OutOfFuel => True
  end.
Proof.
  unfold existsSync, read_and_parse.
  destruct (fs !! filePath) as [[|[ast|]]|] eqn:E; intros H Hd; cbn;
    try reflexivity; try exact E; [|discriminate].
  split; [exact E|]. apply Hd. reflexivity.
Qed.

Section Visit.

Variable rec : string -> string -> walker (option string).
Variables fileOrDir filePath specifier : string.

(** What is known of the recursive call, when started on an existing path. *)
Hypothesis rec_outcome :
  forall f, existsSync fs f = true ->
            outcome_only (answer fs specifier) (walk_exception fs)
              (rec f specifier).
Hypothesis fileOrDir_exists : existsSync fs fileOrDir = true.

Lemma follow_source_outcome sourcePath :
  outcome_only (answer fs specifier) (walk_exception fs)
    (follow_source cwd fs rec fileOrDir specifier sourcePath).
Proof.
  unfold follow_source.
  apply outcome_only_bind with (R := fun _ => True).
  - apply outcome_only_lift. unfold source_dir, lstat_isDirectory.
    unfold existsSync in fileOrDir_exists.
    destruct (fs !! fileOrDir) as [[|?]|]; [exact I..|discriminate].
  - intros dir _.
    destruct (or_null _) as [p|] eqn:E.
    + apply rec_outcome. apply or_null_Some in E as [E _].
      exact (tryResolveSourcePath_exists _ _ _ _ _ E).
    + apply outcome_only_ret. split; [reflexivity|discriminate].
Qed.

Lemma visit_specifiers_outcome source specs foundPath :
  found fs specifier foundPath ->
  outcome_only (found fs specifier) (walk_exception fs)
    (visit_specifiers cwd fs rec fileOrDir specifier source specs foundPath).
Proof.
  intros Hf. induction specs as [|e r IH]; cbn [visit_specifiers].
  - apply outcome_only_ret. exact Hf.
  - destruct (String.eqb _ _); [|exact IH].
    destruct source as [sourcePath|]; [|apply outcome_only_lift; exact I].
    eapply outcome_only_bind; [apply follow_source_outcome|].
    intros v [Hn Hv]. rewrite Hn. destruct v as [p|]; [|exact IH].
    apply outcome_only_ret. exact Hv.
Qed.

Lemma traverse_outcome ast foundPath :
  (forall node, In node ast -> node_declares specifier node = true ->
                declared_in fs filePath specifier) ->
  found fs specifier foundPath ->
  outcome_only (found fs specifier) (walk_exception fs)
    (traverse cwd fs rec fileOrDir filePath specifier ast foundPath).
Proof.
  revert foundPath. induction ast as [|node r IH]; intros foundPath Hd Hf;
    cbn [traverse].
  - apply outcome_only_ret. exact Hf.
  - eapply outcome_only_bind;
      [|intros v Hv; apply IH; [intros n Hn; apply Hd; right; exact Hn|exact Hv]].
    destruct node as [[d|] specs source|sourcePath]; cbn [visit].
    + destruct (declares d specifier) eqn:E; apply outcome_only_ret; [|exact Hf].
      intros p [= <-]. apply (Hd (ExportNamedDeclaration (Some d) specs source));
        [left; reflexivity|exact E].
    + apply visit_specifiers_outcome. exact Hf.
    + eapply outcome_only_bind; [apply follow_source_outcome|].
      intros v [Hn Hv]. rewrite Hn. destruct v as [p|]; apply outcome_only_ret;
        [exact Hv|exact Hf].
Qed.

End Visit.

Lemma walk_exception_of_start f e :
  existsSync fs f = true -> start_exception fs f e -> walk_exception fs e.
Proof.
  unfold existsSync. intros Hex [H|[_ H]]; [exact H|].
  rewrite H in Hex. discriminate.
Qed.

Lemma resolveExport_outcome fuel :
  forall fileOrDir specifier,
    outcome_only (answer fs specifier) (start_exception fs fileOrDir)
      (resolveExport cwd fs allowed fuel fileOrDir specifier).
Proof.
  induction fuel as [|fuel IH]; intros fileOrDir specifier.
  - intros st. exact I.
  - cbn [resolveExport].
    apply outcome_only_bind
      with (R := fun isDir : bool =>
                   existsSync fs fileOrDir = true /\
                   if isDir then fs !! fileOrDir = Some Directory
                   else exists c, fs !! fileOrDir = Some (File c)).
    { apply outcome_only_lift. unfold lstat_isDirectory, existsSync.
      destruct (fs !! fileOrDir) as [[|c]|] eqn:E; [auto|eauto|].
      right. auto. }
    intros isDir [Hex Hkind].
    apply outcome_only_weaken
      with (R := answer fs specifier) (T := walk_exception fs);
      [auto|intros e He; left; exact He|].
    set (filePath := if isDir then _ else _).
    destruct (existsSync fs filePath) eqn:Efile; cbn [negb];
      [|apply outcome_only_ret; split; [reflexivity|discriminate]].
    apply outcome_only_bind with (R := fun _ => True); [intros st; exact I|].
    intros _ _.
    apply outcome_only_bind with (R := fun _ => True);
      [apply classify_outcome|].
    intros _ _.
    apply outcome_only_bind
      with (R := fun ast => fs !! filePath = Some (File (Some ast))).
    { apply outcome_only_lift.
      apply read_and_parse_outcome; [exact Efile|]. subst filePath.
      destruct isDir.
      - intros _. exists fileOrDir. auto.
      - destruct Hkind as [c Hc]. rewrite Hc. discriminate. }
    intros ast Hast.
    apply outcome_only_bind with (R := found fs specifier).
    + apply traverse_outcome.
      * intros f Hf.
        apply outcome_only_weaken
          with (R := answer fs specifier) (T := start_exception fs f);
          [auto|intros e; apply walk_exception_of_start; exact Hf|apply IH].
      * exact Hex.
      * intros node Hin Hd. exists ast. split; [exact Hast|].
        apply existsb_exists. exists node. auto.
      * discriminate.
    + intros v Hv. apply outcome_only_ret. split; [apply or_null_idem|].
      intros p Hp. apply or_null_Some in Hp as [Hp _]. exact (Hv p Hp).
Qed.

End WalkOutcomes.

(** ** One call of the walker on a file that parses *)

Section FileCall.

Variable cwd : string.
Variable fs : gmap string fs_entry.
Variable allowed : list string.

Lemma classify_state filePath corePath l st :
  pathToCorePath filePath = Ret corePath ->
  classify filePath l st =
  Ret (tt, WalkState (last_match (barrelFile st) (matches l filePath))
             (visited st)).
Proof.
  intros Hcp. destruct (classify_returns filePath corePath l st Hcp) as [st' H].
  rewrite H. destruct (classify_spec _ _ _ _ H) as [Hv Hb].
  destruct st' as [b v]. cbn in Hv, Hb. subst. reflexivity.
Qed.


(** After the bookkeeping, what is left of the call is the traversal. *)
Lemma resolveExport_parsed fuel file specifier st corePath ast :
  fs !! file = Some (File (Some ast)) ->
  pathToCorePath file = Ret corePath ->
  resolveExport cwd fs allowed (S fuel) file specifier st =
  (foundPath ← traverse cwd fs (resolveExport cwd fs allowed fuel)
                 file file specifier ast None;
   mret (or_null foundPath))
    (WalkState (last_match (barrelFile st) (matches allowed file))
       (file :: visited st)).
Proof.
  intros Hf Hcp. cbn [resolveExport].
  unfold mbind at 1, walker_bind at 1, lift at 1, lstat_isDirectory.
  rewrite Hf. unfold existsSync. rewrite Hf. cbn [negb].
  unfold mbind at 1, walker_bind at 1. cbn [note_visited].
  unfold mbind at 1, walker_bind at 1.
  rewrite (classify_state file corePath allowed _ Hcp).
  cbn [barrelFile visited].
  unfold mbind at 1, walker_bind at 1, lift at 1, read_and_parse.
  rewrite Hf. reflexivity.
Qed.

Section Traversal.

Variable rec : string -> string -> walker (option string).
Variables fileOrDir filePath specifier : string.

Lemma traverse_declarations pre rest foundPath st :
  Forall is_declaration_export pre ->
  traverse cwd fs rec fileOrDir filePath specifier (pre ++ rest) foundPath st =
  traverse cwd fs rec fileOrDir filePath specifier rest
    (if existsb (node_declares specifier) pre then Some filePath else foundPath)
    st.
Proof.
  intros Hpre. revert foundPath.
  induction Hpre as [|node pre Hn _ IH]; intros foundPath; [reflexivity|].
  destruct node as [[d|] specs source|sourcePath]; try contradiction.
  cbn [app traverse visit existsb node_declares].
  unfold mbind, walker_bind.
  destruct (declares d specifier); cbn [orb]; unfold mret, walker_ret.
  - rewrite IH. destruct (existsb _ pre); reflexivity.
  - apply IH.
Qed.

Lemma visit_specifiers_no_match source specs foundPath :
  existsb (fun e => String.eqb (es_exported e) specifier) specs = false ->
  visit_specifiers cwd fs rec fileOrDir specifier source specs foundPath
  = mret foundPath.
Proof.
  induction specs as [|e r IH]; [reflexivity|]. cbn [existsb visit_specifiers].
  destruct (String.eqb _ _); [discriminate|]. exact IH.
Qed.

Lemma visit_specifiers_local specs foundPath st :
  existsb (fun e => String.eqb (es_exported e) specifier) specs = true ->
  visit_specifiers cwd fs rec fileOrDir specifier None specs foundPath st
  = Throw (TypeError "Cannot read properties of null (reading 'value')").
Proof.
  induction specs as [|e r IH]; [discriminate|]. cbn [existsb visit_specifiers].
  destruct (String.eqb _ _); [reflexivity|]. exact IH.
Qed.

End Traversal.

End FileCall.



(** X3: when, after exports that are all declarations, a file has an export
    list without a source ([export { Foo };]) that exports the name looked
    for, the call throws a [TypeError]: the visitor reads [node.source.value]
    of a [null] source. *)
Theorem resolveExport_local_export_list_throws :
  forall cwd fs allowed fuel file specifier st corePath pre specs post,
    fs !! file =
      Some (File (Some (pre ++ ExportNamedDeclaration None specs None :: post)%list)) ->
    pathToCorePath file = Ret corePath ->
    Forall is_declaration_export pre ->
    existsb (fun e => String.eqb (es_exported e) specifier) specs = true ->
    resolveExport cwd fs allowed (S fuel) file specifier st =
    Throw (TypeError "Cannot read properties of null (reading 'value')").
Proof.
  intros cwd0 fs allowed fuel file specifier st corePath pre specs post
    Hf Hcp Hpre Hm.
  rewrite (resolveExport_parsed _ _ _ _ _ _ _ _ _ Hf Hcp).
  unfold mbind at 1, walker_bind at 1.
  rewrite traverse_declarations by exact Hpre.
  cbn [traverse visit]. unfold mbind at 1, walker_bind at 1.
  rewrite visit_specifiers_local by exact Hm. reflexivity.
Qed.

Lemma resolveExport_local_export_list_throws_witness :
  resolveExport Scenario.cwd
    (<[Scenario.ab_ts :=
         Scenario.file [Scenario.export_const "Bar";
                        ExportNamedDeclaration None
                          [{| es_local := "Foo"; es_exported := "Foo" |}] None]]>
       Scenario.fs_ab)
    [] 1 Scenario.ab_ts "Foo" (WalkState None []) =
  Throw (TypeError "Cannot read properties of null (reading 'value')").
Proof.
  refine (resolveExport_local_export_list_throws Scenario.cwd _ [] 0
            Scenario.ab_ts "Foo" (WalkState None [])
            "@trigger.dev/core/v3/ab.ts" [Scenario.export_const "Bar"]
            [{| es_local := "Foo"; es_exported := "Foo" |}] [] _ _ _ _).
  - vm_compute. reflexivity.
  - vm_compute. reflexivity.
  - constructor; [exact I|constructor].
  - reflexivity.
Defined.

(** X4: at its starting path, [resolveExport] throws [ENOENT] when the path
    does not exist, returns [null] without recording anything when it is a
    directory without an [index.ts], and throws a [SyntaxError] when it is a
    file under [packages/core/src/] that does not parse. *)
Theorem resolveExport_at_start :
  forall cwd fs allowed fuel fileOrDir specifier st,
    (fs !! fileOrDir = None ->
     resolveExport cwd fs allowed (S fuel) fileOrDir specifier st
     = Throw (ENOENT fileOrDir)) /\
    (fs !! fileOrDir = Some Directory ->
     fs !! Path.join fileOrDir "index.ts" = None ->
     resolveExport cwd fs allowed (S fuel) fileOrDir specifier st
     = Ret (None, st)) /\
    (fs !! fileOrDir = Some (File None) ->
     (exists corePath, pathToCorePath fileOrDir = Ret corePath) ->
     resolveExport cwd fs allowed (S fuel) fileOrDir specifier st
     = Throw (SyntaxError fileOrDir)).
Proof.
  intros cwd0 fs allowed fuel fileOrDir specifier st.
  split; [|split].
  - intros H. cbn [resolveExport].
    unfold mbind, walker_bind, lift, lstat_isDirectory. rewrite H. reflexivity.
  - intros Hd Hi. cbn [resolveExport].
    unfold mbind, walker_bind, lift, lstat_isDirectory, existsSync.
    rewrite Hd, Hi. reflexivity.
  - intros Hf [corePath Hcp]. cbn [resolveExport].
    unfold mbind at 1, walker_bind at 1, lift at 1, lstat_isDirectory.
    rewrite Hf. unfold existsSync. rewrite Hf. cbn [negb].
    unfold mbind at 1, walker_bind at 1. cbn [note_visited].
    unfold mbind at 1, walker_bind at 1.
    rewrite (classify_state fileOrDir corePath allowed _ Hcp).
    unfold mbind at 1, walker_bind at 1, lift at 1, read_and_parse.
    rewrite Hf. reflexivity.
Qed.

Lemma resolveExport_at_start_witness :
  resolveExport Scenario.cwd Scenario.fs_ab [] 1 "/repo/nowhere" "Foo"
    (WalkState None []) = Throw (ENOENT "/repo/nowhere") /\
  resolveExport Scenario.cwd Scenario.fs_ab [] 1 Scenario.v3 "Foo"
    (WalkState None []) = Ret (None, WalkState None []).
Proof.
  destruct (resolveExport_at_start Scenario.cwd Scenario.fs_ab [] 0
              "/repo/nowhere" "Foo" (WalkState None [])) as (H1 & _ & _).
  destruct (resolveExport_at_start Scenario.cwd Scenario.fs_ab [] 0
              Scenario.v3 "Foo" (WalkState None [])) as (_ & H2 & _).
  split.
  - apply H1. vm_compute. reflexivity.
  - apply H2; vm_compute; reflexivity.
Defined.

(** X5: a path that [resolveExport] returns is never empty and is a file that
    parses and exports a variable, function or class declaration of the name
    looked for. *)
Theorem resolveExport_returns_declaring_file :
  forall cwd fs allowed fuel fileOrDir specifier st p st',
    resolveExport cwd fs allowed fuel fileOrDir specifier st
      = Ret (Some p, st') ->
    JsString.truthy p = true /\
    exists ast,
      fs !! p = Some (File (Some ast)) /\
      existsb (node_declares specifier) ast = true.
Proof.
  intros cwd0 fs allowed fuel fileOrDir specifier st p st' H.
  pose proof (resolveExport_outcome cwd0 fs allowed fuel fileOrDir specifier st)
    as Ho.
  rewrite H in Ho. destruct Ho as [Hn Hf]. split.
  - exact (proj2 (or_null_Some _ _ Hn)).
  - exact (Hf p eq_refl).
Qed.

Lemma resolveExport_returns_declaring_file_witness :
  JsString.truthy "/repo/packages/core/src/v3/foo.ts" = true /\
  exists ast,
    Scenario.fs_foo !! "/repo/packages/core/src/v3/foo.ts"
      = Some (File (Some ast)) /\
    existsb (node_declares "Foo") ast = true.
Proof.
  apply (resolveExport_returns_declaring_file Scenario.cwd Scenario.fs_foo []
           2 Scenario.v3 "Foo" (WalkState None [])
           "/repo/packages/core/src/v3/foo.ts"
           (WalkState None ["/repo/packages/core/src/v3/foo.ts";
                            "/repo/packages/core/src/v3/index.ts"])).
  vm_compute. reflexivity.
Defined.

(** X6: an exception thrown by [resolveExport] is [ENOENT] only for a
    starting path that does not exist; a read error only for the [index.ts]
    of a directory, when it is a directory itself; a [SyntaxError] only for a
    file that does not parse; otherwise it is a [TypeError]. Files missing
    further down the re-exports never make it throw. An endless recursion is
    no exception here: it is the call that has not returned at any depth. *)
Theorem resolveExport_exceptions :
  forall cwd fs allowed fuel fileOrDir specifier st e,
    resolveExport cwd fs allowed fuel fileOrDir specifier st = Throw e ->
    match e with
    | ENOENT p => p = fileOrDir /\ fs !! fileOrDir = None
    | ReadError p =>
        fs !! p = Some Directory /\
        exists dir, fs !! dir = Some Directory /\ p = Path.join dir "index.ts"
    | SyntaxError p => fs !! p = Some (File None)
    | TypeError _ => True
    | Error _ => False
    end.
Proof.
  intros cwd0 fs allowed fuel fileOrDir specifier st e H.
  pose proof (resolveExport_outcome cwd0 fs allowed fuel fileOrDir specifier st)
    as Ho.
  rewrite H in Ho. destruct Ho as [Ho|[-> Ho]].
  - destruct e; cbn in Ho; auto. contradiction.
  - auto.
Qed.

Lemma resolveExport_exceptions_witness :
  "/repo/nowhere" = "/repo/nowhere" /\ Scenario.fs_ab !! "/repo/nowhere" = None.
Proof.
  apply (resolveExport_exceptions Scenario.cwd Scenario.fs_ab [] 1
           "/repo/nowhere" "Foo" (WalkState None []) (ENOENT "/repo/nowhere")).
  vm_compute. reflexivity.
Defined.

(** X7: a call on a file under [packages/core/src/] whose only export is
    [export * from "<source>"], or an export list from ["<source>"] in which
    the name looked for is exported once, is the call on the path that the
    source resolves to, started with one more file gone through and the
    file's own allow-list match recorded: the same result, the same
    exception, the same final state. *)
Theorem resolveExport_through_barrel :
  forall cwd fs allowed fuel file specifier st corePath node source p,
    fs !! file = Some (File (Some [node])) ->
    pathToCorePath file = Ret corePath ->
    (node = ExportAllDeclaration source \/
     exists pre e post,
       node = ExportNamedDeclaration None (pre ++ e :: post) (Some source) /\
       es_exported e = specifier /\
       existsb (fun x => String.eqb (es_exported x) specifier) pre = false /\
       existsb (fun x => String.eqb (es_exported x) specifier) post = false) ->
    or_null (tryResolveSourcePath cwd fs (Path.dirname file) source) = Some p ->
    resolveExport cwd fs allowed (S fuel) file specifier st =
    resolveExport cwd fs allowed fuel p specifier
      (WalkState (last_match (barrelFile st) (matches allowed file))
         (file :: visited st)).
Proof.
  intros cwd0 fs allowed fuel file specifier st corePath node source p
    Hf Hcp Hnode Hp.
  rewrite (resolveExport_parsed _ _ _ _ _ _ _ _ _ Hf Hcp).
  set (st1 := WalkState _ _).
  assert (Hdir : source_dir fs file = Ret (Path.dirname file)).
  { unfold source_dir, lstat_isDirectory. rewrite Hf. reflexivity. }
  pose proof (resolveExport_outcome cwd0 fs allowed fuel p specifier st1) as Ho.
  assert (Hfollow : forall st0,
    follow_source cwd0 fs (resolveExport cwd0 fs allowed fuel) file specifier
      source st0 = resolveExport cwd0 fs allowed fuel p specifier st0)
    by (intros st0; apply (follow_source_eq _ _ _ _ _ _ _ _ _ Hdir Hp)).
  destruct Hnode as [->|(pre & e & post & -> & He & Hpre & Hpost)].
  - cbn [traverse visit]. unfold mbind, walker_bind. rewrite Hfollow.
    destruct (resolveExport cwd0 fs allowed fuel p specifier st1)
      as [[r st2]|x|]; [|reflexivity..].
    destruct Ho as [Hn _]. unfold mret, walker_ret.
    destruct (or_null r) as [q|] eqn:E; rewrite <- Hn; [|reflexivity].
    cbn [or_null]. rewrite (proj2 (or_null_Some _ _ E)). reflexivity.
  - cbn [traverse visit]. unfold mbind at 1 2, walker_bind at 1 2.
    assert (Hvs : forall fp st0,
      visit_specifiers cwd0 fs (resolveExport cwd0 fs allowed fuel) file
        specifier (Some source) (pre ++ e :: post) fp st0 =
      (resolvedExport ← resolveExport cwd0 fs allowed fuel p specifier;
       match or_null resolvedExport with
       | Some q => mret (Some q)
       | None => mret fp
       end) st0).
    { intros fp st0. clear Ho Hf. induction pre as [|x pre IH].
      - cbn [app visit_specifiers]. rewrite He, String.eqb_refl.
        unfold mbind, walker_bind. rewrite Hfollow.
        destruct (resolveExport _ _ _ _ _ _ _) as [[r st2]|?|]; try reflexivity.
        destruct (or_null r); [reflexivity|].
        rewrite visit_specifiers_no_match by exact Hpost. reflexivity.
      - cbn [existsb] in Hpre. apply orb_false_iff in Hpre as [Hx Hpre].
        cbn [app visit_specifiers]. rewrite Hx. apply IH. exact Hpre. }
    rewrite Hvs. unfold mbind, walker_bind.
    destruct (resolveExport cwd0 fs allowed fuel p specifier st1)
      as [[r st2]|x|]; [|reflexivity..].
    destruct Ho as [Hn _]. unfold mret, walker_ret.
    destruct (or_null r) as [q|] eqn:E; rewrite <- Hn; [|reflexivity].
    cbn [or_null]. rewrite (proj2 (or_null_Some _ _ E)). reflexivity.
Qed.

Lemma resolveExport_through_barrel_witness :
  resolveExport Scenario.cwd Scenario.fs_foo [] 2
    "/repo/packages/core/src/v3/index.ts" "Foo" (WalkState None []) =
  resolveExport Scenario.cwd Scenario.fs_foo [] 1
    "/repo/packages/core/src/v3/foo.ts" "Foo"
    (WalkState (last_match None
                  (matches [] "/repo/packages/core/src/v3/index.ts"))
       ["/repo/packages/core/src/v3/index.ts"]).
Proof.
  refine (resolveExport_through_barrel Scenario.cwd Scenario.fs_foo [] 1
            "/repo/packages/core/src/v3/index.ts" "Foo" (WalkState None [])
            "@trigger.dev/core/v3/index.ts"
            (Scenario.export_from ["Foo"] "./foo") "./foo"
            "/repo/packages/core/src/v3/foo.ts" _ _ _ _).
  - vm_compute. reflexivity.
  - vm_compute. reflexivity.
  - right. exists [], {| es_local := "Foo"; es_exported := "Foo" |}, [].
    repeat split; reflexivity.
  - vm_compute. reflexivity.
Defined.

(** ** Strings: prefixes and occurrences *)

Lemma prefix_append sep b : String.prefix sep (sep +:+ b) = true.
Proof.
  induction sep as [|c sep IH]; [destruct b; reflexivity|].
  simpl. destruct (ascii_dec c c); [exact IH|congruence].
Qed.

Lemma prefix_drop sep s :
  String.prefix sep s = true -> s = sep +:+ JsString.drop (String.length sep) s.
Proof.
  revert s. induction sep as [|c sep IH]; intros s H; [reflexivity|].
  destruct s as [|d s]; [discriminate|]. simpl in H.
  destruct (ascii_dec c d) as [->|]; [|discriminate].
  change (String d s = String d (sep +:+ JsString.drop (String.length sep) s)).
  f_equal. apply IH. exact H.
Qed.

Lemma split_first_Some sep s a b :
  JsString.split_first sep s = Some (a, b) -> s = a +:+ sep +:+ b.
Proof.
  revert a. induction s as [|c s IH]; intros a; cbn [JsString.split_first].
  - destruct (String.prefix sep "") eqn:E; [|discriminate].
    intros [= <- <-]. apply (prefix_drop _ _ E).
  - destruct (String.prefix sep (String c s)) eqn:E.
    + intros [= <- <-]. apply (prefix_drop _ _ E).
    + destruct (JsString.split_first sep s) as [[a' b']|]; [|discriminate].
      intros [= <- <-].
      change (String c s = String c (a' +:+ sep +:+ b')).
      f_equal. apply IH. reflexivity.
Qed.

Lemma split_first_prefix sep s :
  String.prefix sep s = true ->
  JsString.split_first sep s
  = Some (EmptyString, JsString.drop (String.length sep) s).
Proof. intros H. destruct s; cbn [JsString.split_first]; rewrite H; reflexivity. Qed.

Lemma split_first_contains sep s :
  contains sep s -> JsString.split_first sep s <> None.
Proof.
  intros (a & b & ->). induction a as [|c a IH].
  - change ("" +:+ sep +:+ b) with (sep +:+ b).
    rewrite split_first_prefix by apply prefix_append. discriminate.
  - change (String c a +:+ sep +:+ b) with (String c (a +:+ sep +:+ b)).
    cbn [JsString.split_first]. destruct (String.prefix sep _); [discriminate|].
    destruct (JsString.split_first sep (a +:+ sep +:+ b)) as [[? ?]|];
      [discriminate|contradiction].
Qed.

Lemma backslash_to_slash_clean s a b :
  JsString.backslash_to_slash s <> a +:+ "\" +:+ b.
Proof.
  revert s. induction a as [|x a IH]; intros [|c s] H; try discriminate.
  - change (String (if Ascii.eqb c "\" then "/"%char else c)
              (JsString.backslash_to_slash s) = String "\" b) in H.
    injection H as Hc _.
    destruct (Ascii.eqb_spec c "\"); [discriminate Hc|congruence].
  - change (String (if Ascii.eqb c "\" then "/"%char else c)
              (JsString.backslash_to_slash s) = String x (a +:+ "\" +:+ b)) in H.
    injection H as _ Ht. exact (IH _ Ht).
Qed.

Lemma split_first_first sep s a b :
  JsString.split_first sep s = Some (a, b) -> first_occurrence sep s a b.
Proof.
  intros H. split; [exact (split_first_Some _ _ _ _ H)|].
  revert a H. induction s as [|c s IH]; intros a H a' b' Hs;
    cbn [JsString.split_first] in H.
  - destruct (String.prefix sep "") eqn:E; [|discriminate].
    injection H as <- _. apply Nat.le_0_l.
  - destruct (String.prefix sep (String c s)) eqn:E.
    + injection H as <- _. apply Nat.le_0_l.
    + destruct (JsString.split_first sep s) as [[a0 b0]|] eqn:E0;
        [|discriminate].
      injection H as <- <-.
      destruct a' as [|c' a'].
      * change ("" +:+ sep +:+ b') with (sep +:+ b') in Hs.
        rewrite Hs, prefix_append in E. discriminate.
      * change (String c' a' +:+ sep +:+ b')
          with (String c' (a' +:+ sep +:+ b')) in Hs.
        injection Hs as _ Hs. cbn [String.length]. apply le_n_S.
        exact (IH a0 eq_refl a' b' Hs).
Qed.

Lemma split_first_None sep s :
  JsString.split_first sep s = None -> ~ contains sep s.
Proof. intros H Hc. exact (split_first_contains _ _ Hc H). Qed.

Lemma backslash_to_slash_id s :
  (forall a b, s <> a +:+ "\" +:+ b) -> JsString.backslash_to_slash s = s.
Proof.
  induction s as [|c s IH]; intros H; [reflexivity|].
  cbn [JsString.backslash_to_slash].
  destruct (Ascii.eqb_spec c "\") as [->|_].
  - exfalso. apply (H "" s). reflexivity.
  - rewrite IH; [reflexivity|]. intros a b ->.
    apply (H (String c a) b). reflexivity.
Qed.

(** X8: [pathToCorePath] throws a [TypeError] exactly on a path that does not
    contain ["packages/core/src/"]; on a path that does, it returns
    [@trigger.dev/core/] followed by the text that stands after the first
    occurrence, up to the next occurrence if there is one and to the end
    otherwise, in which every backslash has become a slash (that text itself
    when it has no backslash). *)
Theorem pathToCorePath_spec :
  forall filePath,
    (contains "packages/core/src/" filePath ->
     exists root rest rel,
       first_occurrence "packages/core/src/" filePath root rest /\
       (rel = rest /\ ~ contains "packages/core/src/" rest \/
        exists more, first_occurrence "packages/core/src/" rest rel more) /\
       pathToCorePath filePath
         = Ret ("@trigger.dev/core/" +:+ JsString.backslash_to_slash rel) /\
       (forall a b, JsString.backslash_to_slash rel <> a +:+ "\" +:+ b) /\
       ((forall a b, rel <> a +:+ "\" +:+ b) ->
        JsString.backslash_to_slash rel = rel)) /\
    (~ contains "packages/core/src/" filePath ->
     pathToCorePath filePath
       = Throw (TypeError "Cannot read properties of undefined (reading 'replace')")).
Proof.
  intros filePath. unfold pathToCorePath, JsString.split_index1. split.
  - intros Hc. apply split_first_contains in Hc.
    destruct (JsString.split_first _ filePath) as [[root rest]|] eqn:E;
      [|contradiction].
    apply split_first_first in E.
    destruct (JsString.split_first _ rest) as [[rel more]|] eqn:E2.
    + apply split_first_first in E2. exists root, rest, rel.
      split; [exact E|]. split; [right; exists more; exact E2|].
      split; [reflexivity|].
      split; [apply backslash_to_slash_clean|apply backslash_to_slash_id].
    + apply split_first_None in E2. exists root, rest, rest.
      split; [exact E|]. split; [left; auto|]. split; [reflexivity|].
      split; [apply backslash_to_slash_clean|apply backslash_to_slash_id].
  - intros Hn.
    destruct (JsString.split_first _ filePath) as [[root rest]|] eqn:E;
      [|reflexivity].
    apply split_first_Some in E. exfalso. apply Hn. exists root, rest. exact E.
Qed.

Lemma pathToCorePath_spec_witness :
  pathToCorePath "/repo/packages/core/v3/foo.ts"
  = Throw (TypeError "Cannot read properties of undefined (reading 'replace')").
Proof.
  apply (proj2 (pathToCorePath_spec "/repo/packages/core/v3/foo.ts")).
  intros Hc. apply split_first_contains in Hc. apply Hc.
  vm_compute. reflexivity.
Defined.

(** ** The allow-list *)

Lemma omap_length_le {A B} (f : A -> option B) (l : list A) :
  length (omap f l) <= length l.
Proof.
  induction l as [|a l IH]; [reflexivity|]. cbn [omap list_omap].
  change (length (match f a with
                  | Some y => y :: omap f l
                  | None => omap f l
                  end) <= S (length l)).
  destruct (f a); cbn [length]; lia.
Qed.

(** X9: every entry of the allow-list is a path below the package root,
    [@trigger.dev/core/...], and none is a blocked import source; there are
    at most as many entries as keys in the export map. *)
Theorem getAllowedBarrelFiles_subpaths :
  forall exports,
    Forall (fun x => String.prefix "@trigger.dev/core/" x = true /\
                     x ∉ blockedImportSources)
           (getAllowedBarrelFiles exports) /\
    length (getAllowedBarrelFiles exports) <= length exports.
Proof.
  intros exports. split.
  - apply Forall_forall. intros x Hx.
    unfold getAllowedBarrelFiles in Hx.
    apply list_elem_of_filter in Hx as [Hnb Hx]. split; [|exact Hnb].
    apply list_elem_of_omap in Hx as (key & _ & Hk).
    rewrite allowed_entry_eq in Hk. destruct (String.eqb _ _); [discriminate|].
    inversion Hk as [Hx]. destruct (JsString.strip_dot_slash key) as [|c k].
    + exfalso. apply Hnb. subst x. left.
    + reflexivity.
  - unfold getAllowedBarrelFiles.
    etransitivity; [apply length_filter|]. apply omap_length_le.
Qed.

(** ** The rule driver: when it reports, and what *)

Lemma map_outcome_Ret {A B} (f : A -> outcome B) l ys :
  map_outcome f l = Ret ys -> Forall2 (fun x y => f x = Ret y) l ys.
Proof.
  revert ys. induction l as [|x l IH]; intros ys; cbn [map_outcome].
  - intros [= <-]. constructor.
  - unfold mbind, outcome_bind. destruct (f x) as [y| |] eqn:E; try discriminate.
    destruct (map_outcome f l) as [ys'| |]; try discriminate.
    intros [= <-]. constructor; [exact E|apply IH; reflexivity].
Qed.

Lemma all_matches_nil files : all_matches [] files = [].
Proof.
  unfold all_matches. induction files as [|f r IH]; [reflexivity|].
  cbn [map concat]. rewrite IH. unfold matches.
  destruct (pathToCorePath f); reflexivity.
Qed.

Lemma resolveSpecifier_empty_allow_list cwd fs tsconfig fuel importSource
    specifier v :
  resolveSpecifier cwd fs [] tsconfig fuel importSource specifier = Ret v ->
  jsval_truthy v = false.
Proof.
  unfold resolveSpecifier, mbind, outcome_bind.
  destruct (resolveSpecifier_run _ _ _ _ _ _ _) as [[v' st]| |] eqn:E;
    try discriminate.
  intros [= <-].
  destruct (resolveSpecifier_run_inv _ _ _ _ _ _ _ _ _ E)
    as (corePath & resolvedPath & _ & _ & Hb & ->).
  rewrite all_matches_nil in Hb. cbn in Hb. rewrite Hb.
  destruct (or_null resolvedPath); reflexivity.
Qed.

(** X10: with an empty allow-list, as a manifest that exports only blocked
    entries gives, a report that the rule makes is always the one without a
    fix. *)
Theorem ImportDeclaration_empty_allow_list :
  forall cwd fs tsconfig fuel node r,
    ImportDeclaration cwd fs [] tsconfig fuel node = Ret (Some r) ->
    r = Report "noTriggerCoreImport" [("importSource", imp_source node)] None.
Proof.
  intros cwd0 fs tsconfig0 fuel node r. unfold ImportDeclaration.
  destruct (bool_decide _); [|discriminate].
  unfold mbind, outcome_bind.
  destruct (map_outcome _ _) as [mapped| |] eqn:E; try discriminate.
  assert (Hnone : omap id mapped = []).
  { apply map_outcome_Ret in E. induction E as [|s x specs mapped Hs _ IH];
      [reflexivity|].
    assert (x = None) as ->; [|exact IH].
    unfold specifier_fix_of, mbind, outcome_bind in Hs.
    destruct (imported_name s) as [name| |]; try discriminate.
    destruct (resolveSpecifier _ _ _ _ _ _ _) as [v| |] eqn:Ev;
      try discriminate.
    apply resolveSpecifier_empty_allow_list in Ev.
    destruct v as [| |p]; try (inversion Hs; reflexivity).
    cbn in Ev. rewrite Ev in Hs. inversion Hs; reflexivity. }
  rewrite Hnone. cbn. intros [= <-]. reflexivity.
Qed.

Lemma ImportDeclaration_empty_allow_list_witness :
  Report "noTriggerCoreImport" [("importSource", "@trigger.dev/core/v3")] None
  = Report "noTriggerCoreImport"
      [("importSource", imp_source Scenario.import_Foo)] None.
Proof.
  symmetry.
  apply (ImportDeclaration_empty_allow_list Scenario.cwd Scenario.fs_foo
           Scenario.tsconfig 2 Scenario.import_Foo).
  vm_compute. reflexivity.
Defined.

(** X11: the rule makes no report exactly for an import whose source is not
    blocked; on a blocked source it reports, throws or has not returned, and
    it never looks at the specifiers of an import that is not blocked. *)
Theorem ImportDeclaration_reports_iff_blocked :
  forall cwd fs allowed tsconfig fuel node,
    ImportDeclaration cwd fs allowed tsconfig fuel node = Ret None <->
    imp_source node ∉ blockedImportSources.
Proof.
  intros cwd0 fs allowed tsconfig0 fuel node. unfold ImportDeclaration.
  destruct (bool_decide _) eqn:E.
  - apply bool_decide_eq_true in E. split; [|contradiction].
    unfold mbind, outcome_bind.
    destruct (map_outcome _ _); try discriminate.
    destruct (0 <? _)%nat; discriminate.
  - apply bool_decide_eq_false in E. split; auto.
Qed.

Lemma ImportDeclaration_reports_iff_blocked_witness :
  ImportDeclaration Scenario.cwd Scenario.fs_foo [] Scenario.tsconfig 0
    (ImportDecl "@trigger.dev/sdk" [ImportDefaultSpecifier "sdk" "sdk"])
  = Ret None.
Proof.
  apply (proj2 (ImportDeclaration_reports_iff_blocked Scenario.cwd
                  Scenario.fs_foo [] Scenario.tsconfig 0
                  (ImportDecl "@trigger.dev/sdk"
                     [ImportDefaultSpecifier "sdk" "sdk"]))).
  vm_compute. intros H.
  inversion H as [|? ? ? H1]; subst. inversion H1 as [|? ? ? H2]; subst.
  inversion H2.
Defined.

(** X12: a blocked import with a default or a namespace specifier
    ([import core from ...], [import * as core from ...]) never gets a
    report: the rule throws or has not returned; when that specifier comes
    first, it throws the [TypeError] of reading [name] of an [imported] that
    is [undefined]. *)
Theorem ImportDeclaration_unnamed_specifier :
  forall cwd fs allowed tsconfig fuel node s,
    imp_source node ∈ blockedImportSources ->
    s ∈ imp_specifiers node ->
    unnamed_specifier s ->
    (forall r, ImportDeclaration cwd fs allowed tsconfig fuel node <> Ret r) /\
    (head (imp_specifiers node) = Some s ->
     ImportDeclaration cwd fs allowed tsconfig fuel node
     = Throw (TypeError "Cannot read properties of undefined (reading 'name')")).
Proof.
  intros cwd0 fs allowed tsconfig0 fuel node s Hb Hin Hs.
  unfold ImportDeclaration. rewrite (bool_decide_eq_true_2 _ Hb).
  assert (Hthrow : specifier_fix_of cwd0 fs allowed tsconfig0 fuel
                     (imp_source node) s
                   = Throw (TypeError
                       "Cannot read properties of undefined (reading 'name')")).
  { destruct s; [contradiction|reflexivity..]. }
  split.
  - intros r. unfold mbind, outcome_bind.
    destruct (map_outcome _ _) as [mapped| |] eqn:E; try discriminate.
    exfalso. apply map_outcome_Ret in E.
    apply list_elem_of_In in Hin.
    induction E as [|x y l l' Hx _ IH]; [contradiction|].
    destruct Hin as [->|Hin]; [congruence|exact (IH Hin)].
  - destruct (imp_specifiers node) as [|s' specs]; [discriminate|].
    intros [= ->]. cbn [map_outcome]. unfold mbind, outcome_bind.
    rewrite Hthrow. reflexivity.
Qed.

Lemma ImportDeclaration_unnamed_specifier_witness :
  ImportDeclaration Scenario.cwd Scenario.fs_foo [] Scenario.tsconfig 2
    (ImportDecl "@trigger.dev/core"
       [ImportNamespaceSpecifier "core" "* as core"])
  = Throw (TypeError "Cannot read properties of undefined (reading 'name')").
Proof.
  refine (proj2 (ImportDeclaration_unnamed_specifier Scenario.cwd
                   Scenario.fs_foo [] Scenario.tsconfig 2
                   (ImportDecl "@trigger.dev/core"
                      [ImportNamespaceSpecifier "core" "* as core"])
                   (ImportNamespaceSpecifier "core" "* as core") _ _ _) _).
  - vm_compute. left.
  - left.
  - exact I.
  - reflexivity.
Defined.

(** ** Resolving the import source *)

Lemma resolve_absolute cwd args :
  Path.isAbsolute cwd = true -> Path.isAbsolute (Path.resolve cwd args) = true.
Proof.
  intros H. unfold Path.resolve.
  destruct (Path.resolve_scan (rev args) "") as [acc abs].
  destruct abs; [reflexivity|]. rewrite H. reflexivity.
Qed.

(** X13: [resolveModulePath] throws exactly when loading the path mapping
    throws, and then the same exception, or gives a result without base URL
    or without path table, and then the error "Could not load tsconfig
    paths"; otherwise it returns a path, absolute when the working directory
    is: the import source resolved against the working directory when no
    mapping matches, and the [index.ts] of the mapped path when that is a
    directory holding one. *)
Theorem resolveModulePath_total :
  forall cwd fs tsconfig sourcePath,
    (forall e,
       resolveModulePath cwd fs tsconfig sourcePath = Throw e <->
       tsconfig = ConfigThrows e \/
       (tsconfig = ConfigIncomplete /\
        e = Error "Could not load tsconfig paths")) /\
    (forall matchPath,
       tsconfig = ConfigPaths matchPath ->
       exists p,
         resolveModulePath cwd fs tsconfig sourcePath = Ret p /\
         (Path.isAbsolute cwd = true -> Path.isAbsolute p = true) /\
         (matchPath sourcePath = None -> p = Path.resolve cwd [sourcePath]) /\
         (forall dir,
            or_null (matchPath sourcePath) = Some dir ->
            fs !! dir = Some Directory ->
            existsSync fs (Path.join dir "index.ts") = true ->
            p = Path.resolve cwd [Path.join dir "index.ts"])).
Proof.
  intros cwd0 fs tsconfig0 sourcePath. split.
  - intros e. unfold resolveModulePath.
    destruct tsconfig0 as [e'| |matchPath].
    + split; [intros [= ->]; left; reflexivity|].
      intros [[= ->]|[H _]]; [reflexivity|discriminate].
    + split; [intros [= <-]; right; auto|].
      intros [H|[_ ->]]; [discriminate|reflexivity].
    + split.
      * destruct (or_null (matchPath sourcePath)); discriminate.
      * intros [H|[H _]]; discriminate.
  - intros matchPath ->. unfold resolveModulePath.
    destruct (or_null (matchPath sourcePath)) as [resolvedPath|] eqn:E.
    + eexists. split; [reflexivity|]. split; [apply resolve_absolute|].
      split; [intros Hn; rewrite Hn in E; discriminate|].
      intros dir [= <-] Hd Hi. unfold exists_and_isDirectory.
      rewrite Hi. unfold existsSync. rewrite Hd. reflexivity.
    + eexists. split; [reflexivity|]. split; [apply resolve_absolute|].
      split; [reflexivity|discriminate].
Qed.

Lemma resolveModulePath_total_witness :
  resolveModulePath Scenario.cwd Scenario.fs_foo
    (ConfigThrows (ENOENT "/repo/tsconfig.json")) "@trigger.dev/core"
  = Throw (ENOENT "/repo/tsconfig.json").
Proof.
  apply (proj1 (resolveModulePath_total Scenario.cwd Scenario.fs_foo
                  (ConfigThrows (ENOENT "/repo/tsconfig.json"))
                  "@trigger.dev/core") (ENOENT "/repo/tsconfig.json")).
  left. reflexivity.
Defined.

(** ** Specifiers that do not resolve are left out of the fix *)

Lemma fixes_of_insert_unresolved resolve pre s post fixes imported local text v :
  s = ImportSpecifier imported local text ->
  resolve imported = Ret v -> jsval_truthy v = false ->
  fixes_of resolve (pre ++ post) fixes ->
  fixes_of resolve (pre ++ s :: post) fixes.
Proof.
  intros -> Hr Hv. revert fixes.
  induction pre as [|x pre IH]; intros fixes H; cbn [app] in *.
  - eapply fixes_of_unresolved; eassumption.
  - inversion H; subst.
    + eapply fixes_of_resolved; eauto.
    + eapply fixes_of_unresolved; eauto.
Qed.

(** X14: when a named specifier of a blocked import does not resolve while
    others do, the fix is the one the import would get without that
    specifier: the replacement text has no statement for it, so applying the
    fix removes that name's import. *)
Theorem ImportDeclaration_drops_unresolved :
  forall cwd fs allowed tsconfig fuel source pre post imported local text v
         f fixes,
    source ∈ blockedImportSources ->
    resolveSpecifier cwd fs allowed tsconfig fuel source imported = Ret v ->
    jsval_truthy v = false ->
    fixes_of (resolveSpecifier cwd fs allowed tsconfig fuel source)
      (pre ++ post) (f :: fixes) ->
    let node :=
      ImportDecl source (pre ++ ImportSpecifier imported local text :: post) in
    exists data data',
      ImportDeclaration cwd fs allowed tsconfig fuel node =
        Ret (Some (Report "noTriggerCoreImportFixable" data
                     (Some (replaceText node
                              (JsString.join newline
                                 (map fix_statement (f :: fixes))))))) /\
      ImportDeclaration cwd fs allowed tsconfig fuel
        (ImportDecl source (pre ++ post)) =
        Ret (Some (Report "noTriggerCoreImportFixable" data'
                     (Some (replaceText (ImportDecl source (pre ++ post))
                              (JsString.join newline
                                 (map fix_statement (f :: fixes))))))).
Proof.
  intros cwd0 fs allowed tsconfig0 fuel source pre post imported local text v
    f fixes Hb Hr Hv Hf node.
  eexists _, _. split.
  - apply (ImportDeclaration_fixes_of cwd0 fs allowed tsconfig0 fuel node
             (f :: fixes) Hb).
    apply (fixes_of_insert_unresolved _ _ _ _ _ imported local text v);
      auto.
  - apply (ImportDeclaration_fixes_of cwd0 fs allowed tsconfig0 fuel
             (ImportDecl source (pre ++ post)) (f :: fixes) Hb). exact Hf.
Qed.

Lemma ImportDeclaration_drops_unresolved_witness :
  exists data,
    ImportDeclaration Scenario.cwd Scenario.fs_foo ["@trigger.dev/core/v3/foo"]
      Scenario.tsconfig 2
      (ImportDecl "@trigger.dev/core/v3"
         [ImportSpecifier "Foo" "Foo" "Foo"; ImportSpecifier "Bar" "Bar" "Bar"])
    = Ret (Some (Report "noTriggerCoreImportFixable" data
                   (Some (replaceText
                            (ImportDecl "@trigger.dev/core/v3"
                               [ImportSpecifier "Foo" "Foo" "Foo";
                                ImportSpecifier "Bar" "Bar" "Bar"])
                            "import { Foo } from '@trigger.dev/core/v3/foo';")))).
Proof.
  destruct (ImportDeclaration_drops_unresolved Scenario.cwd Scenario.fs_foo
              ["@trigger.dev/core/v3/foo"] Scenario.tsconfig 2
              "@trigger.dev/core/v3" [ImportSpecifier "Foo" "Foo" "Foo"] []
              "Bar" "Bar" "Bar" JNull
              (SpecifierFix "Foo" "@trigger.dev/core/v3/foo") [])
    as (data & _ & H & _).
  - vm_compute. right. left.
  - vm_compute. reflexivity.
  - reflexivity.
  - apply fixes_of_resolved; [vm_compute; reflexivity|reflexivity|].
    apply fixes_of_nil.
  - exists data. exact H.
Defined.

(** ** The GitHub tasks: owner and repository *)

Lemma contains_cons c x s :
  contains (String c "") s -> contains (String c "") (String x s).
Proof. intros (a & b & ->). exists (String x a), b. reflexivity. Qed.

Lemma split_char_without c s :
  ~ contains (String c "") s -> JsString.split_char c s = [s].
Proof.
  induction s as [|x s IH]; intros Hn; [reflexivity|].
  cbn [JsString.split_char]. destruct (Ascii.eqb_spec x c) as [->|Hx].
  - exfalso. apply Hn. exists "", s. reflexivity.
  - rewrite IH; [reflexivity|]. intros Hc. apply Hn, contains_cons, Hc.
Qed.

Lemma split_char_at c a b :
  ~ contains (String c "") a ->
  JsString.split_char c (a +:+ String c b) = a :: JsString.split_char c b.
Proof.
  induction a as [|x a IH]; intros Hn.
  - change ("" +:+ String c b) with (String c b).
    cbn [JsString.split_char]. rewrite Ascii.eqb_refl. reflexivity.
  - change (String x a +:+ String c b) with (String x (a +:+ String c b)).
    cbn [JsString.split_char]. destruct (Ascii.eqb_spec x c) as [->|Hx].
    + exfalso. apply Hn. exists "", a. reflexivity.
    + rewrite IH; [reflexivity|]. intros Hc. apply Hn, contains_cons, Hc.
Qed.

(** X15: for [params.repo] of the form [owner/name], with no slash in either
    part, the request of a repository task carries that owner and that name;
    anything after a second slash is dropped; and for a text without a slash
    the owner is the whole text and the repository is [undefined]. *)
Theorem owner_and_repo_spec :
  forall owner name,
    ~ contains "/" owner -> ~ contains "/" name ->
    GithubRun.owner_and_repo (owner +:+ "/" +:+ name)
      = (Some owner, Some name) /\
    (forall rest,
       GithubRun.owner_and_repo (owner +:+ "/" +:+ name +:+ "/" +:+ rest)
       = (Some owner, Some name)) /\
    GithubRun.owner_and_repo owner = (Some owner, None) /\
    (forall title,
       GithubRun.createIssue_request title (owner +:+ "/" +:+ name)
       = GithubRun.IssuesCreate (Some owner) (Some name) title).
Proof.
  intros owner name Ho Hn.
  assert (H1 : GithubRun.owner_and_repo (owner +:+ "/" +:+ name)
               = (Some owner, Some name)).
  { unfold GithubRun.owner_and_repo.
    change ("/" +:+ name) with (String "/" name).
    rewrite (split_char_at _ _ _ Ho), (split_char_without _ _ Hn). reflexivity. }
  split; [exact H1|]. split; [|split].
  - intros rest. unfold GithubRun.owner_and_repo.
    change ("/" +:+ name +:+ "/" +:+ rest)
      with (String "/" (name +:+ String "/" rest)).
    rewrite (split_char_at _ _ _ Ho), (split_char_at _ _ _ Hn). reflexivity.
  - unfold GithubRun.owner_and_repo. rewrite (split_char_without _ _ Ho).
    reflexivity.
  - intros title. unfold GithubRun.createIssue_request. rewrite H1.
    reflexivity.
Qed.

Lemma owner_and_repo_spec_witness :
  GithubRun.owner_and_repo "triggerdotdev/trigger.dev"
  = (Some "triggerdotdev", Some "trigger.dev").
Proof.
  refine (proj1 (owner_and_repo_spec "triggerdotdev" "trigger.dev" _ _)).
  - intros (a & b & H).
    assert (Hs : JsString.split_first "/" "triggerdotdev" <> None)
      by (apply split_first_contains; exists a, b; exact H).
    apply Hs. vm_compute. reflexivity.
  - intros (a & b & H).
    assert (Hs : JsString.split_first "/" "trigger.dev" <> None)
      by (apply split_first_contains; exists a, b; exact H).
    apply Hs. vm_compute. reflexivity.
Defined.

(** * The rule, end to end *)

(** ** A barrel that re-exports a declared name *)

Section Barrel.

Variable cwd : string.
Variable fs : gmap string fs_entry.
Variable allowed : list string.





End Barrel.









(** C7, on the code: an import from a blocked source none of whose named
    specifiers resolves is not always reported. For
    [import core from "@trigger.dev/core";], which has no named specifier at
    all, the rule throws a [TypeError] in every project; and for
    [import { Bar } from "@trigger.dev/core/v3";] in a project whose path
    table does not map the source, resolution does not come back with
    [null]: it throws [ENOENT]. *)
Theorem C7_unresolved_import_throws :
  (forall cwd fs allowed tsconfig fuel,
     ImportDeclaration cwd fs allowed tsconfig fuel Scenario.import_default
     = Throw (TypeError "Cannot read properties of undefined (reading 'name')")) /\
  (forall allowed fuel,
     ImportDeclaration Scenario.cwd Scenario.fs_foo allowed
       Scenario.tsconfig_unmapped (S fuel) Scenario.import_Bar
     = Throw (ENOENT "/repo/@trigger.dev/core")).
Proof.
  split.
  - intros cwd0 fs allowed tsconfig0 fuel. reflexivity.
  - intros allowed fuel.
    assert (H : specifier_fix_of Scenario.cwd Scenario.fs_foo allowed
                  Scenario.tsconfig_unmapped (S fuel) "@trigger.dev/core/v3"
                  (ImportSpecifier "Bar" "Bar" "Bar")
                = Throw (ENOENT "/repo/@trigger.dev/core")).
    { unfold specifier_fix_of, resolveSpecifier, resolveSpecifier_run.
      cbn [imported_name]. unfold mbind, outcome_bind.
      replace (resolveModulePath Scenario.cwd Scenario.fs_foo
                 Scenario.tsconfig_unmapped "@trigger.dev/core/v3")
        with (@Ret string "/repo/@trigger.dev/core/v3")
        by (vm_compute; reflexivity).
      replace (Path.dirname "/repo/@trigger.dev/core/v3")
        with "/repo/@trigger.dev/core" by (vm_compute; reflexivity).
      cbn [resolveExport]. unfold mbind, walker_bind, lift.
      replace (lstat_isDirectory Scenario.fs_foo "/repo/@trigger.dev/core")
        with (@Throw bool (ENOENT "/repo/@trigger.dev/core"))
        by (vm_compute; reflexivity).
      reflexivity. }
    unfold ImportDeclaration, Scenario.import_Bar.
    cbn [imp_source imp_specifiers].
    rewrite bool_decide_eq_true_2 by (right; left).
    cbn [map_outcome]. unfold mbind at 1, outcome_bind at 1.
    rewrite H. reflexivity.
Qed.
